(** * The DEFLATE64 bridge of btidy (pkg/deflate64/deflate64_bridge.c)

    A shallow embedding of the bridge that drives zlib's [inflateBack9]
    through a pull hook and a push hook, and of its handle life cycle.

    Conventions.
    - [size_t] is 64 bits wide and [unsigned] is 32 bits wide (LP64); both
      are carried as [Z] and every C operation that can wrap is written with
      its reduction ([to_size_t], [to_uInt]).
    - A pointer into a caller buffer is carried as the contents it points
      at; a position inside the input is an offset from its first byte, and
      [None] stands for [Z_NULL].
    - The engine ([inflateBack9Init], [inflateBack9]) lives in zlib, outside
      the bridge.  It is a parameter of the development: one engine run is a
      finite script of hook calls that ends by storing into the stream and
      returning a status. *)

From Stdlib Require Import ZArith Lia String.
From Stdlib.Strings Require Import Byte.
From stdpp Require Import base list gmap strings.

Local Open Scope Z_scope.

(** ** Machine integers *)

Definition UINT_MAX : Z := 4294967295.
Definition SIZE_MAX : Z := 18446744073709551615.

(** Conversion to [unsigned] / [uInt]. *)
Definition to_uInt (z : Z) : Z := z mod (UINT_MAX + 1).

(** Conversion to, and arithmetic in, [size_t]. *)
Definition to_size_t (z : Z) : Z := z mod (SIZE_MAX + 1).

Definition is_size_t (z : Z) : Prop := 0 <= z <= SIZE_MAX.
Definition is_uInt (z : Z) : Prop := 0 <= z <= UINT_MAX.

(** ** zlib status codes (zlib.h) *)

Definition Z_OK : Z := 0.
Definition Z_STREAM_END : Z := 1.
Definition Z_STREAM_ERROR : Z := -2.
Definition Z_DATA_ERROR : Z := -3.
Definition Z_MEM_ERROR : Z := -4.
Definition Z_BUF_ERROR : Z := -5.

(** ** Data model *)

(** The fields of [z_stream] the bridge and the engine exchange.  [zstate] is
    [strm->state], the engine context, whose contents only the engine knows;
    [zalloc_set] records that [zalloc], [zfree] and [opaque] were installed. *)
Record z_stream {ctx : Type} := mk_z_stream {
  next_in : option Z;
  avail_in : Z;
  msg : option string;
  zstate : option ctx;
  zalloc_set : bool
}.
Arguments z_stream : clear implicits.
Arguments mk_z_stream {ctx}.

(** [struct btidy_deflate64_state]. *)
Record btidy_deflate64_state {ctx : Type} := mk_state {
  stream : z_stream ctx;
  window : option positive;
  input : list byte;
  input_len : Z;
  input_offset : Z;
  output : list byte;
  output_len : Z;
  output_offset : Z;
  output_overflow : Z;
  initialized : Z
}.
Arguments btidy_deflate64_state : clear implicits.
Arguments mk_state {ctx}.

(** One run of the engine, as the bridge sees it: calls of the [in] hook,
    calls of the [out] hook with the bytes offered, and the final store into
    the stream together with the returned status. *)
Inductive engine_run {ctx : Type} : Type :=
| Leave (ret : Z) (strm : z_stream ctx)
| CallIn (k : option Z -> Z -> engine_run)
| CallOut (buf : list byte) (k : Z -> engine_run).
Arguments engine_run : clear implicits.

(** What a hook invocation did, with the handle as the hook left it. *)
Inductive hook_event {ctx : Type} : Type :=
| PullEvent (buf : option Z) (count : Z) (after : btidy_deflate64_state ctx)
| PushEvent (len : Z) (stop : Z) (after : btidy_deflate64_state ctx).
Arguments hook_event : clear implicits.

(** The caller's out-parameters: [true] for a usable pointer, [false] for
    [NULL]. *)
Record out_params := mk_out_params {
  input_used_ptr : bool;
  output_used_ptr : bool;
  needs_input_ptr : bool;
  needs_output_ptr : bool;
  finished_ptr : bool
}.

(** The values stored through the out-parameters. *)
Record inflate_outs := mk_outs {
  input_used : Z;
  output_used : Z;
  needs_input : Z;
  needs_output : Z;
  finished : Z
}.

(** ** The allocator

    Live blocks with their sizes, the next fresh address and the room left;
    [malloc] fails exactly when the request does not fit. *)
Record heap := mk_heap {
  blocks : gmap positive Z;
  brk : positive;
  room : Z
}.

Definition malloc (n : Z) (hp : heap) : option positive * heap :=
  if n <=? room hp
  then (Some (brk hp),
        mk_heap (<[brk hp := n]> (blocks hp)) (Pos.succ (brk hp)) (room hp - n))
  else (None, hp).

Definition free (p : positive) (hp : heap) : heap :=
  match blocks hp !! p with
  | Some n => mk_heap (delete p (blocks hp)) (brk hp) (room hp + n)
  | None => hp
  end.

(** [calloc]: the block is zero-filled, which shows in what is stored in it. *)
Definition calloc (items size : Z) (hp : heap) : option positive * heap :=
  malloc (items * size) hp.

(** [memcpy (dst + at, src, n)] on buffer contents. *)
Definition memcpy (dst : list byte) (at_ : Z) (src : list byte) (n : Z) : list byte :=
  take (Z.to_nat at_) dst ++ take (Z.to_nat n) src ++ drop (Z.to_nat (at_ + n)) dst.

Section Bridge.

Context {ctx : Type}.

Local Abbreviation handle := (btidy_deflate64_state ctx).

(** Field stores. *)
Definition set_stream (s : z_stream ctx) (st : handle) : handle :=
  mk_state s (window st) (input st) (input_len st) (input_offset st)
           (output st) (output_len st) (output_offset st)
           (output_overflow st) (initialized st).

Definition set_window (w : option positive) (st : handle) : handle :=
  mk_state (stream st) w (input st) (input_len st) (input_offset st)
           (output st) (output_len st) (output_offset st)
           (output_overflow st) (initialized st).

Definition set_input_offset (c : Z) (st : handle) : handle :=
  mk_state (stream st) (window st) (input st) (input_len st) c
           (output st) (output_len st) (output_offset st)
           (output_overflow st) (initialized st).

Definition set_output (o : list byte) (st : handle) : handle :=
  mk_state (stream st) (window st) (input st) (input_len st) (input_offset st)
           o (output_len st) (output_offset st)
           (output_overflow st) (initialized st).

Definition set_output_offset (c : Z) (st : handle) : handle :=
  mk_state (stream st) (window st) (input st) (input_len st) (input_offset st)
           (output st) (output_len st) c
           (output_overflow st) (initialized st).

Definition set_output_overflow (f : Z) (st : handle) : handle :=
  mk_state (stream st) (window st) (input st) (input_len st) (input_offset st)
           (output st) (output_len st) (output_offset st)
           f (initialized st).

Definition set_initialized (f : Z) (st : handle) : handle :=
  mk_state (stream st) (window st) (input st) (input_len st) (input_offset st)
           (output st) (output_len st) (output_offset st)
           (output_overflow st) f.

(** ** The hooks *)

(** [btidy_infback9_in]: the pull hook.  Returns what it stored in [*buf],
    the count, and the handle. *)
Definition btidy_infback9_in (state : handle) : option Z * Z * handle :=
  if input_len state <=? input_offset state then
    (None, 0, state)
  else
    let buf := Some (input_offset state) in
    let remaining := to_size_t (input_len state - input_offset state) in
    let remaining := if UINT_MAX <? remaining then UINT_MAX else remaining in
    let state := set_input_offset (to_size_t (input_offset state + remaining)) state in
    (buf, to_uInt remaining, state).

(** [btidy_infback9_out]: the push hook. *)
Definition btidy_infback9_out (state : handle) (buf : list byte) (len : Z)
  : Z * handle :=
  let remaining := to_size_t (output_len state - output_offset state) in
  let to_copy := len in
  let to_copy := if remaining <? to_copy then remaining else to_copy in
  let state :=
    if 0 <? to_copy
    then set_output (memcpy (output state) (output_offset state) buf to_copy) state
    else state in
  let state := set_output_offset (to_size_t (output_offset state + to_copy)) state in
  if to_copy <? len then (1, set_output_overflow 1 state) else (0, state).

(** ** Running the engine against the hooks *)

(** The [len] argument the engine passes with the bytes it offers. *)
Definition offered (buf : list byte) : Z := to_uInt (Z.of_nat (length buf)).

Fixpoint run_engine (e : engine_run ctx) (state : handle) : Z * handle :=
  match e with
  | Leave ret strm => (ret, set_stream strm state)
  | CallIn k =>
      let '(buf, n, state) := btidy_infback9_in state in
      run_engine (k buf n) state
  | CallOut buf k =>
      let '(stop, state) := btidy_infback9_out state buf (offered buf) in
      run_engine (k stop) state
  end.

(** The hook invocations of a run, in order. *)
Fixpoint engine_trace (e : engine_run ctx) (state : handle) : list (hook_event ctx) :=
  match e with
  | Leave _ _ => []
  | CallIn k =>
      let '(buf, n, state) := btidy_infback9_in state in
      PullEvent buf n state :: engine_trace (k buf n) state
  | CallOut buf k =>
      let '(stop, state) := btidy_infback9_out state buf (offered buf) in
      PushEvent (offered buf) stop state :: engine_trace (k stop) state
  end.

End Bridge.

(** ** The bridge's entry points *)

Section Driver.

Context {ctx : Type}.

Local Abbreviation handle := (btidy_deflate64_state ctx).

(** The engine.  [inflateBack9Init strm window] returns its status and the
    stream as it leaves it; [inflateBack9 mem strm] is the run the engine
    performs on the stream [strm] whose [next_in] points into the bytes
    [mem]. *)
Variable inflateBack9Init : z_stream ctx -> positive -> Z * z_stream ctx.
Variable inflateBack9 : list byte -> z_stream ctx -> engine_run ctx.

(** [sizeof (btidy_deflate64_state)]. *)
Variable sizeof_state : Z.

(** What [calloc] hands back: every field zero, every pointer [NULL]. *)
Definition zeroed_state : handle :=
  mk_state (mk_z_stream None 0 None None false) None [] 0 0 [] 0 0 0 0.

(** [btidy_deflate64_new]. *)
Definition btidy_deflate64_new (hp : heap) : option handle * heap :=
  match calloc 1 sizeof_state hp with
  | (Some _, hp) => (Some zeroed_state, hp)
  | (None, hp) => (None, hp)
  end.

Definition install_allocators (s : z_stream ctx) : z_stream ctx :=
  mk_z_stream (next_in s) (avail_in s) (msg s) (zstate s) true.

(** [btidy_deflate64_init]. *)
Definition btidy_deflate64_init (state : option handle) (hp : heap)
  : Z * option handle * heap :=
  match state with
  | None => (Z_STREAM_ERROR, None, hp)
  | Some state =>
      let '(w, hp) := malloc 65536 hp in
      let state := set_window w state in
      match w with
      | None => (Z_MEM_ERROR, Some state, hp)
      | Some wp =>
          let state := set_stream (install_allocators (stream state)) state in
          let '(ret, strm) := inflateBack9Init (stream state) wp in
          let state := set_stream strm state in
          if negb (ret =? Z_OK) then
            let hp := free wp hp in
            let state := set_window None state in
            (ret, Some state, hp)
          else
            (Z_OK, Some (set_initialized 1 state), hp)
      end
  end.

(** The null test that opens [btidy_deflate64_inflate]. *)
Definition all_present (p : out_params) : bool :=
  input_used_ptr p && output_used_ptr p && needs_input_ptr p &&
  needs_output_ptr p && finished_ptr p.

(** The stores that bind one call's buffers into the handle and the stream. *)
Definition bind_call (state : handle) (input : list byte) (input_len : Z)
    (output : list byte) (output_len : Z) : handle :=
  let strm := stream state in
  let avail := if UINT_MAX <? input_len then UINT_MAX else to_uInt input_len in
  mk_state (mk_z_stream (Some 0) avail (msg strm) (zstate strm) (zalloc_set strm))
           (window state) input input_len 0 output output_len 0 0
           (initialized state).

(** The one engine run of a call: status and handle as the run leaves them. *)
Definition engine_call (state : handle) (input : list byte) (input_len : Z)
    (output : list byte) (output_len : Z) : Z * handle :=
  let state := bind_call state input input_len output output_len in
  run_engine (inflateBack9 input (stream state)) state.

(** The hook invocations of that run. *)
Definition call_trace (state : handle) (input : list byte) (input_len : Z)
    (output : list byte) (output_len : Z) : list (hook_event ctx) :=
  let state := bind_call state input input_len output output_len in
  engine_trace (inflateBack9 input (stream state)) state.

(** [btidy_deflate64_inflate].  The result is the returned status, the
    handle, and the values stored through the out-parameters ([None] when
    the function returns before storing any). *)
Definition btidy_deflate64_inflate (state : option handle)
    (input : list byte) (input_len : Z) (input_eof : Z)
    (output : list byte) (output_len : Z) (p : out_params)
  : Z * option handle * option inflate_outs :=
  match state with
  | None => (Z_STREAM_ERROR, None, None)
  | Some state =>
      if negb (all_present p) then (Z_STREAM_ERROR, Some state, None)
      else
        let '(ret, state) := engine_call state input input_len output output_len in
        let input_used := to_size_t (input_len - to_uInt (avail_in (stream state))) in
        let output_used := output_offset state in
        let return_ret :=
          (ret, Some state, Some (mk_outs input_used output_used 0 0 0)) in
        if ret =? Z_STREAM_END then
          (Z_OK, Some state, Some (mk_outs input_used output_used 0 0 1))
        else if ret =? Z_BUF_ERROR then
          if negb (output_overflow state =? 0) then
            (Z_OK, Some state, Some (mk_outs input_used output_used 0 1 0))
          else if input_used =? input_len then
            if negb (input_eof =? 0) then
              (Z_DATA_ERROR, Some state, Some (mk_outs input_used output_used 1 0 0))
            else
              (Z_OK, Some state, Some (mk_outs input_used output_used 1 0 0))
          else return_ret
        else return_ret
  end.

(** The [switch] of [btidy_deflate64_error_message]. *)
Definition status_text (code : Z) : string :=
  if code =? Z_DATA_ERROR then "invalid deflate64 stream"
  else if code =? Z_MEM_ERROR then "insufficient memory"
  else if code =? Z_STREAM_ERROR then "invalid stream state"
  else if code =? Z_BUF_ERROR then "insufficient input or output buffer"
  else "unknown deflate64 error".

(** [btidy_deflate64_error_message]; the result is a C string pointer
    ([None] would be [NULL]). *)
Definition btidy_deflate64_error_message (state : option handle) (code : Z)
  : option string :=
  match state with
  | Some st =>
      match msg (stream st) with
      | Some m => Some m
      | None => Some (status_text code)
      end
  | None => Some (status_text code)
  end.

(** ** What the bridge relies on from the engine *)

(** The engine never reports more unconsumed input than the chunk it was
    handed last: the bytes bound through the stream at the start, then the
    count of the latest pull. *)
Fixpoint reports_within (have : Z) (e : engine_run ctx) : Prop :=
  match e with
  | Leave _ strm => to_uInt (avail_in strm) <= have
  | CallIn k => forall buf n, is_uInt n -> reports_within n (k buf n)
  | CallOut _ k => forall stop, reports_within have (k stop)
  end.

Definition engine_reports_within : Prop :=
  forall mem strm, reports_within (to_uInt (avail_in strm)) (inflateBack9 mem strm).

(** [inflateBack9] on a stream with no engine context returns
    [Z_STREAM_ERROR] at once, touching nothing. *)
Definition engine_rejects_unbound : Prop :=
  forall mem strm, zstate strm = None ->
    inflateBack9 mem strm = Leave Z_STREAM_ERROR strm.

(** A failing [inflateBack9Init] binds no engine context. *)
Definition failed_bind_binds_nothing : Prop :=
  forall strm w, (inflateBack9Init strm w).1 <> Z_OK ->
    zstate (inflateBack9Init strm w).2 = zstate strm.

(** Whatever diagnostic the engine leaves in [msg] is a non-empty text, as
    long as the stream it was given held none or a non-empty one. *)
Fixpoint leaves_text (e : engine_run ctx) : Prop :=
  match e with
  | Leave _ strm => msg strm <> Some EmptyString
  | CallIn k => forall buf n, leaves_text (k buf n)
  | CallOut _ k => forall stop, leaves_text (k stop)
  end.

Definition engine_texts_nonempty : Prop :=
  (forall mem strm, msg strm <> Some EmptyString ->
     leaves_text (inflateBack9 mem strm)) /\
  (forall strm w, msg strm <> Some EmptyString ->
     msg (inflateBack9Init strm w).2 <> Some EmptyString).

(** Handles a caller can hold: made by [btidy_deflate64_new], then passed
    through [btidy_deflate64_init] and [btidy_deflate64_inflate]. *)
Inductive handle_reachable : handle -> Prop :=
| reach_new hp0 h hp :
    btidy_deflate64_new hp0 = (Some h, hp) -> handle_reachable h
| reach_init h hp ret h' hp' :
    handle_reachable h ->
    btidy_deflate64_init (Some h) hp = (ret, Some h', hp') ->
    handle_reachable h'
| reach_inflate h input input_len input_eof output output_len p ret h' outs :
    handle_reachable h ->
    btidy_deflate64_inflate (Some h) input input_len input_eof
                            output output_len p = (ret, Some h', outs) ->
    handle_reachable h'.

End Driver.

(** ** Cursor discipline *)

(** Both cursors lie inside their buffers, whose lengths are [size_t]
    values. *)
Definition cursors_ok {ctx : Type} (st : btidy_deflate64_state ctx) : Prop :=
  is_size_t (input_len st) /\ 0 <= input_offset st <= input_len st /\
  is_size_t (output_len st) /\ 0 <= output_offset st <= output_len st.

(** After a push hook invocation the output cursor is at most [L]. *)
Definition push_cursor_within {ctx : Type} (L : Z) (ev : hook_event ctx) : Prop :=
  match ev with
  | PushEvent _ _ after => output_offset after <= L
  | PullEvent _ _ _ => True
  end.

(** The call is the one in which [btidy_deflate64_inflate] turns an
    exhausted final input into [Z_DATA_ERROR]. *)
Definition truncation_promoted {ctx : Type} (ret : Z)
    (st' : btidy_deflate64_state ctx) (input_len input_eof : Z) : Prop :=
  ret = Z_BUF_ERROR /\ output_overflow st' = 0 /\
  to_size_t (input_len - to_uInt (avail_in (stream st'))) = input_len /\
  input_eof <> 0.

(** A push hook invocation that asked the engine to stop. *)
Definition push_stopped {ctx : Type} (ev : hook_event ctx) : Prop :=
  match ev with
  | PushEvent _ stop _ => stop <> 0
  | PullEvent _ _ _ => False
  end.

(** ** A small engine to run the bridge on

    It ignores the bytes bound through the stream and pulls its input.  A
    chunk is copied out up to its first [x00], which ends the stream, or its
    first [xff], which is malformed; what follows the marker is reported as
    unconsumed. *)
Module Toy.

Inductive marker := EndOfStream | Malformed.

(** Scans at most [n] bytes: the literal bytes before the marker, the
    marker if one was met, and the number of bytes taken, marker included. *)
Fixpoint scan (l : list byte) (n : Z) : list byte * option marker * Z :=
  match l with
  | [] => ([], None, 0)
  | b :: rest =>
      if n <=? 0 then ([], None, 0)
      else if Byte.eqb b x00 then ([], Some EndOfStream, 1)
      else if Byte.eqb b xff then ([], Some Malformed, 1)
      else let '(lit, m, used) := scan rest (n - 1) in (b :: lit, m, used + 1)
  end.

Definition leave (ret : Z) (strm : z_stream unit) (next : option Z) (have : Z)
    (text : option string) : engine_run unit :=
  Leave ret (mk_z_stream next have text (zstate strm) (zalloc_set strm)).

Fixpoint loop (fuel : nat) (mem : list byte) (strm : z_stream unit)
  : engine_run unit :=
  match fuel with
  | O => leave Z_BUF_ERROR strm None 0 None
  | S fuel =>
      CallIn (fun buf n =>
        match buf with
        | None => leave Z_BUF_ERROR strm None 0 None
        | Some off =>
            match scan (drop (Z.to_nat off) mem) n with
            | (lit, Some EndOfStream, used) =>
                CallOut lit (fun stop =>
                  leave (if stop =? 0 then Z_STREAM_END else Z_BUF_ERROR)
                        strm (Some (off + used)) (n - used) None)
            | (lit, Some Malformed, used) =>
                leave Z_DATA_ERROR strm (Some (off + used)) (n - used)
                      (Some "invalid block type"%string)
            | (lit, None, used) =>
                CallOut lit (fun stop =>
                  if stop =? 0 then loop fuel mem strm
                  else leave Z_BUF_ERROR strm (Some (off + n)) 0 None)
            end
        end)
  end.

Definition inflateBack9 (mem : list byte) (strm : z_stream unit) : engine_run unit :=
  match zstate strm with
  | None => Leave Z_STREAM_ERROR strm
  | Some _ => loop 4 mem strm
  end.

(** Binds a context when [ok], fails with [Z_MEM_ERROR] otherwise. *)
Definition inflateBack9Init (ok : bool) (strm : z_stream unit) (w : positive)
  : Z * z_stream unit :=
  if ok
  then (Z_OK, mk_z_stream (next_in strm) (avail_in strm) None (Some tt) (zalloc_set strm))
  else (Z_MEM_ERROR, strm).

Definition sizeof_state : Z := 200.

Definition all_out : out_params := mk_out_params true true true true true.

Definition empty_heap : heap := mk_heap ∅ 1%positive 1000000.

(** A handle after [btidy_deflate64_new] and a successful
    [btidy_deflate64_init]. *)
Definition ready : btidy_deflate64_state unit :=
  mk_state (mk_z_stream None 0 None (Some tt) true) (Some 2%positive)
           [] 0 0 [] 0 0 0 1.

(** A handle in the middle of a call: 5 000 000 000 input bytes bound, none
    pulled yet. *)
Definition pulling : btidy_deflate64_state unit :=
  mk_state (mk_z_stream (Some 0) UINT_MAX None (Some tt) true) (Some 2%positive)
           [] 5000000000 0 [] 0 0 0 1.

(** A handle in the middle of a call: five output bytes bound, three
    already written. *)
Definition pushing : btidy_deflate64_state unit :=
  mk_state (mk_z_stream (Some 0) 0 None (Some tt) true) (Some 2%positive)
           [] 0 0 [x31; x32; x33; x00; x00] 5 3 0 1.

(** A handle whose last run left an engine diagnostic. *)
Definition failed : btidy_deflate64_state unit :=
  mk_state (mk_z_stream (Some 2) 2 (Some "invalid block type"%string) (Some tt) true)
           (Some 2%positive) [] 0 0 [] 0 0 0 1.

End Toy.

(** ** Releasing a handle *)

(** Addresses from [brk] on were never handed out, so none of them is
    live. *)
Definition heap_wf (hp : heap) : Prop :=
  forall p, (brk hp <= p)%positive -> blocks hp !! p = None.

Section Release.

Context {ctx : Type}.

(** [inflateBack9End], the engine's teardown: its status and the stream as
    it leaves it.  What the engine allocates and frees for itself through
    [zalloc] and [zfree] is the engine's business; the heap here follows the
    blocks the bridge allocates. *)
Variable inflateBack9End : z_stream ctx -> Z * z_stream ctx.

(** [btidy_deflate64_free].  A handle pointer is the address of its block
    together with what the block holds.  The result is the heap and, when
    the engine's teardown was called, the status it returned (which the
    function discards). *)
Definition btidy_deflate64_free
    (state : option (positive * btidy_deflate64_state ctx)) (hp : heap)
  : heap * option Z :=
  match state with
  | None => (hp, None)
  | Some (addr, state) =>
      let ended :=
        if negb (initialized state =? 0)
        then Some (inflateBack9End (stream state)).1
        else None in
      let hp :=
        match window state with
        | Some w => free w hp
        | None => hp
        end in
      (free addr hp, ended)
  end.

End Release.

(** The pointer [btidy_deflate64_new] returns: the address of the block
    [calloc] handed out, [None] for [NULL]. *)
Definition new_pointer (sizeof_state : Z) (hp : heap) : option positive :=
  (calloc 1 sizeof_state hp).1.

(** ** What a run hands over *)

Section Delivery.

Context {ctx : Type}.

Local Abbreviation handle := (btidy_deflate64_state ctx).

(** The bytes the engine offered to the push hook during a run, in order. *)
Fixpoint offered_bytes (e : engine_run ctx) (state : handle) : list byte :=
  match e with
  | Leave _ _ => []
  | CallIn k =>
      let '(buf, n, state) := btidy_infback9_in state in
      offered_bytes (k buf n) state
  | CallOut buf k =>
      let '(stop, state) := btidy_infback9_out state buf (offered buf) in
      buf ++ offered_bytes (k stop) state
  end.

(** The counts the pull hook returned during a run, summed. *)
Fixpoint pulled_total (tr : list (hook_event ctx)) : Z :=
  match tr with
  | [] => 0
  | PullEvent _ n _ :: tr => n + pulled_total tr
  | PushEvent _ _ _ :: tr => pulled_total tr
  end.

(** Every buffer the engine may offer has a length that fits the hook's
    [unsigned len]. *)
Fixpoint offers_fit (e : engine_run ctx) : Prop :=
  match e with
  | Leave _ _ => True
  | CallIn k => forall buf n, is_uInt n -> offers_fit (k buf n)
  | CallOut buf k =>
      Z.of_nat (length buf) <= UINT_MAX /\ forall stop, offers_fit (k stop)
  end.

(** Starting with the cursor at [c] of [L], the pulls of a trace hand out
    consecutive slices: each starts where the one before ended, has length
    [min (L - c) UINT_MAX], and the empty indication comes exactly when the
    cursor has reached [L]; pushes leave the cursor alone. *)
Fixpoint pulls_consecutive (c L : Z) (tr : list (hook_event ctx)) : Prop :=
  match tr with
  | [] => True
  | PullEvent buf n after :: tr =>
      ((c < L /\ buf = Some c /\ n = Z.min (L - c) UINT_MAX) \/
       (c = L /\ buf = None /\ n = 0)) /\
      input_offset after = c + n /\
      pulls_consecutive (c + n) L tr
  | PushEvent _ _ after :: tr =>
      input_offset after = c /\ pulls_consecutive c L tr
  end.

End Delivery.

(** An output buffer [out] that received the bytes [bytes] from offset [c]
    on, as far as they fit. *)
Definition deliver (out : list byte) (c : Z) (bytes : list byte) : list byte :=
  take (Z.to_nat c) out ++ take (length out - Z.to_nat c)%nat bytes ++
  drop (Z.to_nat c + length bytes)%nat out.

Section Driving.

Context {ctx : Type}.

Variable inflateBack9 : list byte -> z_stream ctx -> engine_run ctx.

(** [driven h h']: zero or more [btidy_deflate64_inflate] calls take the
    handle [h] to [h']. *)
Inductive driven : btidy_deflate64_state ctx -> btidy_deflate64_state ctx -> Prop :=
| driven_none h : driven h h
| driven_call h h1 h' input input_len input_eof output output_len p ret outs :
    btidy_deflate64_inflate inflateBack9 (Some h) input input_len input_eof
                            output output_len p = (ret, Some h1, outs) ->
    driven h1 h' ->
    driven h h'.

End Driving.

Module ToyEnd.

(** Unbinds the engine context and reports [Z_OK], or [Z_STREAM_ERROR] for a
    stream that has none. *)
Definition inflateBack9End (strm : z_stream unit) : Z * z_stream unit :=
  match zstate strm with
  | Some _ =>
      (Z_OK, mk_z_stream (next_in strm) (avail_in strm) (msg strm) None
                         (zalloc_set strm))
  | None => (Z_STREAM_ERROR, strm)
  end.

End ToyEnd.

(** * Properties *)

(** ** Machine arithmetic *)

Lemma to_size_t_small z : is_size_t z -> to_size_t z = z.
Proof. unfold is_size_t, to_size_t, SIZE_MAX. intros H. apply Z.mod_small. lia. Qed.

Lemma to_uInt_small z : is_uInt z -> to_uInt z = z.
Proof. unfold is_uInt, to_uInt, UINT_MAX. intros H. apply Z.mod_small. lia. Qed.

Lemma to_uInt_range z : is_uInt (to_uInt z).
Proof.
  unfold is_uInt, to_uInt, UINT_MAX.
  pose proof (Z.mod_pos_bound z (4294967295 + 1) ltac:(lia)). lia.
Qed.

Lemma to_size_t_range z : is_size_t (to_size_t z).
Proof.
  unfold is_size_t, to_size_t, SIZE_MAX.
  pose proof (Z.mod_pos_bound z (18446744073709551615 + 1) ltac:(lia)). lia.
Qed.

Lemma uInt_is_size_t z : is_uInt z -> is_size_t z.
Proof. unfold is_uInt, is_size_t, UINT_MAX, SIZE_MAX. lia. Qed.

(** Exposes the numeric ranges to [lia]. *)
Ltac ranges :=
  unfold cursors_ok, is_uInt, is_size_t, UINT_MAX, SIZE_MAX in *; cbn in *.

(** ** The hooks *)

Section HookFacts.

Context {ctx : Type}.

Local Abbreviation handle := (btidy_deflate64_state ctx).

(** The pull hook, in closed form. *)
Lemma pull_exhausted (state : handle) :
  input_len state <= input_offset state ->
  btidy_infback9_in state = (None, 0, state).
Proof. intros H. unfold btidy_infback9_in. rewrite (proj2 (Z.leb_le _ _) H). reflexivity. Qed.

Lemma pull_slice (state : handle) :
  is_size_t (input_len state) -> 0 <= input_offset state < input_len state ->
  btidy_infback9_in state =
    (Some (input_offset state),
     Z.min (input_len state - input_offset state) UINT_MAX,
     set_input_offset
       (input_offset state + Z.min (input_len state - input_offset state) UINT_MAX)
       state).
Proof.
  intros HL Hc. unfold btidy_infback9_in.
  rewrite (proj2 (Z.leb_gt _ _)) by lia.
  rewrite (to_size_t_small (input_len state - input_offset state))
    by (unfold is_size_t in *; lia).
  destruct (Z.ltb_spec UINT_MAX (input_len state - input_offset state)) as [Hbig|Hfit].
  - rewrite Z.min_r by lia.
    rewrite to_size_t_small by (unfold is_size_t, UINT_MAX in *; lia).
    rewrite to_uInt_small by (unfold is_uInt, UINT_MAX; lia). reflexivity.
  - rewrite Z.min_l by lia.
    rewrite to_size_t_small by (unfold is_size_t in *; lia).
    rewrite to_uInt_small by (unfold is_uInt; lia). reflexivity.
Qed.

(** C5.  The pull hook at cursor [c] and length [L]: once [c >= L] it stores
    [Z_NULL], returns 0 and leaves the handle as it is; before that it stores
    the position [c] of the input, returns [min (L - c) UINT_MAX], moves the
    cursor forward by that count and touches nothing else, and the slice ends
    inside the caller's input. *)
Theorem pull_hook_contract (state : handle) :
  is_size_t (input_len state) -> is_size_t (input_offset state) ->
  let c := input_offset state in
  let L := input_len state in
  let n := Z.min (L - c) UINT_MAX in
  (L <= c -> btidy_infback9_in state = (None, 0, state)) /\
  (c < L ->
     btidy_infback9_in state = (Some c, n, set_input_offset (c + n) state) /\
     0 < n /\ is_uInt n /\ c + n <= L).
Proof.
  intros HL Hc c L n. split.
  - apply pull_exhausted.
  - intros Hlt. split; [apply pull_slice; unfold is_size_t in *; lia|].
    subst c L n. unfold is_uInt, is_size_t, UINT_MAX in *. lia.
Qed.

(** The push hook, in closed form. *)
Lemma push_closed_form (state : handle) (buf : list byte) (len : Z) :
  is_size_t (output_len state) ->
  0 <= output_offset state <= output_len state ->
  0 <= len ->
  let c := output_offset state in
  let n := Z.min len (output_len state - c) in
  btidy_infback9_out state buf len =
    (if n <? len then 1 else 0,
     mk_state (stream state) (window state) (input state) (input_len state)
              (input_offset state)
              (take (Z.to_nat c) (output state) ++ take (Z.to_nat n) buf ++
               drop (Z.to_nat (c + n)) (output state))
              (output_len state) (c + n)
              (if n <? len then 1 else output_overflow state)
              (initialized state)).
Proof.
  intros HL Hc Hlen c n. unfold btidy_infback9_out.
  rewrite (to_size_t_small (output_len state - output_offset state))
    by (unfold is_size_t in *; lia).
  fold c.
  assert (Hn : (if output_len state - c <? len then output_len state - c else len) = n).
  { subst n. destruct (Z.ltb_spec (output_len state - c) len); lia. }
  rewrite Hn.
  assert (Hcn : to_size_t (c + n) = c + n).
  { apply to_size_t_small. subst c n. unfold is_size_t in *. lia. }
  destruct (Z.ltb_spec 0 n) as [Hpos|Hzero].
  - cbn [output_offset set_output]. fold c. rewrite Hcn.
    destruct (n <? len); unfold memcpy; destruct state; reflexivity.
  - assert (n = 0) by (subst c n; lia).
    assert (Hsame : take (Z.to_nat c) (output state) ++ take (Z.to_nat n) buf ++
                    drop (Z.to_nat (c + n)) (output state) = output state).
    { replace n with 0 by lia. rewrite Z.add_0_r. apply take_drop. }
    rewrite Hsame. fold c. rewrite Hcn.
    destruct (n <? len); destruct state; reflexivity.
Qed.

(** C4.  The push hook at cursor [c <= L], offered [len] bytes: it copies
    the first [n = min len (L - c)] of them into the output at offset [c]
    and leaves every other output byte alone, moves the cursor to [c + n],
    and returns the stop indicator 1 with the overflow flag set exactly when
    [n < len]; otherwise it returns 0 and leaves the flag as it found it.
    The handle returned with the stop indicator already holds the bytes that
    fitted. *)
Theorem push_hook_contract (state : handle) (buf : list byte) (len : Z) :
  is_size_t (output_len state) ->
  0 <= output_offset state <= output_len state ->
  Z.of_nat (length (output state)) = output_len state ->
  Z.of_nat (length buf) = len ->
  let c := output_offset state in
  let L := output_len state in
  let n := Z.min len (L - c) in
  let stop := (btidy_infback9_out state buf len).1 in
  let after := (btidy_infback9_out state buf len).2 in
  output after =
    take (Z.to_nat c) (output state) ++ take (Z.to_nat n) buf ++
    drop (Z.to_nat (c + n)) (output state) /\
  take (Z.to_nat n) (drop (Z.to_nat c) (output after)) = take (Z.to_nat n) buf /\
  length (output after) = length (output state) /\
  output_offset after = c + n /\
  (stop <> 0 <-> n < len) /\
  (n < len -> stop = 1 /\ output_overflow after = 1) /\
  (len <= n -> stop = 0 /\ output_overflow after = output_overflow state) /\
  output_len after = L /\
  input_offset after = input_offset state /\
  stream after = stream state.
Proof.
  intros HL Hc Hout Hbuf c L n stop after.
  assert (Hlen : 0 <= len) by lia.
  pose proof (push_closed_form state buf len HL Hc Hlen) as E.
  cbv zeta in E. fold c in E. fold L in E. fold n in E.
  subst stop after. rewrite E. cbn [fst snd output output_offset output_overflow
    output_len input_offset stream].
  assert (Hn0 : 0 <= n) by (subst n c L; lia).
  assert (HnL : c + n <= L) by (subst n c L; lia).
  assert (Hnb : n <= len) by (subst n; lia).
  assert (Htc : length (take (Z.to_nat c) (output state)) = Z.to_nat c)
    by (rewrite length_take; lia).
  assert (Htn : length (take (Z.to_nat n) buf) = Z.to_nat n)
    by (rewrite length_take; lia).
  repeat split.
  - rewrite drop_app_length' by (symmetry; exact Htc).
    rewrite take_app_length' by (symmetry; exact Htn). reflexivity.
  - rewrite !length_app, Htc, Htn, length_drop. lia.
  - destruct (Z.ltb_spec n len); lia.
  - intros H. rewrite (proj2 (Z.ltb_lt _ _) H). lia.
  - rewrite (proj2 (Z.ltb_lt _ _) H). reflexivity.
  - rewrite (proj2 (Z.ltb_lt _ _) H). reflexivity.
  - rewrite (proj2 (Z.ltb_ge _ _) H). reflexivity.
  - rewrite (proj2 (Z.ltb_ge _ _) H). reflexivity.
Qed.

End HookFacts.

(** ** One engine run *)

Section RunFacts.

Context {ctx : Type}.

Local Abbreviation handle := (btidy_deflate64_state ctx).

Lemma pull_frame (st : handle) :
  let st' := (btidy_infback9_in st).2 in
  input_len st' = input_len st /\ output_len st' = output_len st /\
  output_offset st' = output_offset st /\
  output_overflow st' = output_overflow st /\
  initialized st' = initialized st /\ window st' = window st /\
  stream st' = stream st.
Proof.
  unfold btidy_infback9_in. destruct (input_len st <=? input_offset st);
    cbn; repeat split; reflexivity.
Qed.

Lemma push_frame (st : handle) buf len :
  let st' := (btidy_infback9_out st buf len).2 in
  input_len st' = input_len st /\ output_len st' = output_len st /\
  input_offset st' = input_offset st /\
  initialized st' = initialized st /\ window st' = window st /\
  stream st' = stream st.
Proof.
  unfold btidy_infback9_out.
  repeat match goal with |- context [if ?b then _ else _] => destruct b end;
    cbn; repeat split; reflexivity.
Qed.

Lemma pull_cursors_ok (st : handle) :
  cursors_ok st ->
  cursors_ok (btidy_infback9_in st).2 /\
  is_uInt (btidy_infback9_in st).1.2 /\
  (btidy_infback9_in st).1.2 <= input_len st.
Proof.
  intros (HL & Hc & HL' & Hc').
  destruct (Z_le_gt_dec (input_len st) (input_offset st)) as [Hge|Hlt].
  - rewrite pull_exhausted by exact Hge. ranges. repeat split; lia.
  - rewrite pull_slice by (auto; lia). ranges. repeat split; lia.
Qed.

Lemma push_cursors_ok (st : handle) buf len :
  cursors_ok st -> 0 <= len -> cursors_ok (btidy_infback9_out st buf len).2.
Proof.
  intros (HL & Hc & HL' & Hc') Hlen.
  rewrite push_closed_form by assumption. ranges. repeat split; lia.
Qed.

Lemma offered_nonneg buf : 0 <= offered buf.
Proof. unfold offered. pose proof (to_uInt_range (Z.of_nat (length buf))) as H. apply H. Qed.

(** The run changes neither the lengths bound for the call nor the life-cycle
    fields. *)
Lemma run_frame (e : engine_run ctx) : forall st : handle,
  let st' := (run_engine e st).2 in
  input_len st' = input_len st /\ output_len st' = output_len st /\
  initialized st' = initialized st /\ window st' = window st.
Proof.
  induction e as [ret strm | k IH | buf k IH]; intros st; cbn [run_engine].
  - cbn. repeat split; reflexivity.
  - pose proof (pull_frame st) as F. cbv zeta in F.
    destruct (btidy_infback9_in st) as [[b n] st1]. cbn [snd] in F.
    specialize (IH b n st1). cbv zeta in IH. intuition congruence.
  - pose proof (push_frame st buf (offered buf)) as F. cbv zeta in F.
    destruct (btidy_infback9_out st buf (offered buf)) as [stop st1]. cbn [snd] in F.
    specialize (IH stop st1). cbv zeta in IH. intuition congruence.
Qed.

(** The cursors stay inside their buffers through the whole run. *)
Lemma run_cursors_ok (e : engine_run ctx) : forall st : handle,
  cursors_ok st -> cursors_ok (run_engine e st).2.
Proof.
  induction e as [ret strm | k IH | buf k IH]; intros st Hok; cbn [run_engine].
  - exact Hok.
  - pose proof (pull_cursors_ok st Hok) as (F & _).
    destruct (btidy_infback9_in st) as [[b n] st1]. cbn [snd] in F. auto.
  - pose proof (push_cursors_ok st buf (offered buf) Hok (offered_nonneg buf)) as F.
    destruct (btidy_infback9_out st buf (offered buf)) as [stop st1]. cbn [snd] in F.
    auto.
Qed.

Lemma trace_push_within (e : engine_run ctx) : forall st : handle,
  cursors_ok st -> Forall (push_cursor_within (output_len st)) (engine_trace e st).
Proof.
  induction e as [ret strm | k IH | buf k IH]; intros st Hok; cbn [engine_trace].
  - constructor.
  - pose proof (pull_cursors_ok st Hok) as (F & _).
    pose proof (pull_frame st) as (_ & EL & _).
    destruct (btidy_infback9_in st) as [[b n] st1]. cbn [snd] in F, EL.
    constructor; [exact I | rewrite <- EL; auto].
  - pose proof (push_cursors_ok st buf (offered buf) Hok (offered_nonneg buf)) as F.
    pose proof (push_frame st buf (offered buf)) as (_ & EL & _).
    destruct (btidy_infback9_out st buf (offered buf)) as [stop st1]. cbn [snd] in F, EL.
    constructor; [cbn; rewrite <- EL; unfold cursors_ok in F; tauto
                 | rewrite <- EL; auto].
Qed.

(** An engine that keeps to [reports_within] leaves at most [input_len]
    bytes reported as unconsumed. *)
Lemma run_reports_within (e : engine_run ctx) : forall (st : handle) have,
  cursors_ok st -> have <= input_len st -> reports_within have e ->
  to_uInt (avail_in (stream (run_engine e st).2)) <= input_len st.
Proof.
  induction e as [ret strm | k IH | buf k IH]; intros st have Hok Hhave Hw;
    cbn [run_engine reports_within] in *.
  - cbn. lia.
  - pose proof (pull_cursors_ok st Hok) as (F & Hn & HnL).
    pose proof (pull_frame st) as (EL & _). 
    destruct (btidy_infback9_in st) as [[b n] st1]. cbn [fst snd] in *.
    rewrite <- EL. apply (IH b n st1 n); [assumption | lia | auto].
  - pose proof (push_cursors_ok st buf (offered buf) Hok (offered_nonneg buf)) as F.
    pose proof (push_frame st buf (offered buf)) as (EL & _).
    destruct (btidy_infback9_out st buf (offered buf)) as [stop st1]. cbn [snd] in *.
    rewrite <- EL. apply (IH stop st1 have); [assumption | lia | auto].
Qed.

(** The overflow flag is sticky: once 1 it stays 1, and a run that starts
    with it clear ends with it set exactly when some push asked to stop. *)
Lemma run_overflow_flag (e : engine_run ctx) : forall st : handle,
  output_overflow st = 0 \/ output_overflow st = 1 ->
  (output_overflow (run_engine e st).2 = 1 <->
   output_overflow st = 1 \/ Exists push_stopped (engine_trace e st)) /\
  (output_overflow (run_engine e st).2 = 0 \/
   output_overflow (run_engine e st).2 = 1).
Proof.
  induction e as [ret strm | k IH | buf k IH]; intros st Hflag;
    cbn [run_engine engine_trace].
  - cbn. split; [|exact Hflag]. rewrite Exists_nil. tauto.
  - pose proof (pull_frame st) as (_ & _ & _ & EF & _).
    destruct (btidy_infback9_in st) as [[b n] st1]. cbn [snd] in EF.
    rewrite Exists_cons. cbn [push_stopped].
    specialize (IH b n st1). rewrite EF in IH. specialize (IH Hflag). tauto.
  - assert (Hpush :
      ((btidy_infback9_out st buf (offered buf)).1 = 0 /\
       output_overflow (btidy_infback9_out st buf (offered buf)).2
         = output_overflow st) \/
      ((btidy_infback9_out st buf (offered buf)).1 = 1 /\
       output_overflow (btidy_infback9_out st buf (offered buf)).2 = 1)).
    { unfold btidy_infback9_out.
      repeat match goal with |- context [if ?b then _ else _] => destruct b end;
        cbn; auto. }
    destruct (btidy_infback9_out st buf (offered buf)) as [stop st1].
    cbn [fst snd] in Hpush. rewrite Exists_cons. cbn [push_stopped].
    specialize (IH stop st1).
    destruct Hpush as [[Hs Hf]|[Hs Hf]]; rewrite Hf in IH.
    + specialize (IH Hflag). subst stop. intuition lia.
    + specialize (IH (or_intror eq_refl)). subst stop. intuition lia.
Qed.

End RunFacts.

(** ** The driver *)

Section DriverFacts.

Context {ctx : Type}.

Local Abbreviation handle := (btidy_deflate64_state ctx).

Variable inflateBack9 : list byte -> z_stream ctx -> engine_run ctx.

Lemma bind_call_cursors_ok (st : handle) input input_len output output_len :
  is_size_t input_len -> is_size_t output_len ->
  cursors_ok (bind_call st input input_len output output_len) /\
  to_uInt (avail_in (stream (bind_call st input input_len output output_len)))
    <= input_len.
Proof.
  intros Hi Ho. unfold bind_call. cbn. split.
  - ranges. lia.
  - destruct (Z.ltb_spec UINT_MAX input_len).
    + rewrite to_uInt_small by (ranges; lia). ranges. lia.
    + rewrite to_uInt_small by apply to_uInt_range.
      rewrite to_uInt_small by (ranges; lia). lia.
Qed.

Lemma bind_call_lengths (st : handle) (i : list byte) (il : Z) (o : list byte) (ol : Z) :
  input_len (bind_call st i il o ol) = il /\
  output_len (bind_call st i il o ol) = ol /\
  initialized (bind_call st i il o ol) = initialized st /\
  zstate (stream (bind_call st i il o ol)) = zstate (stream st).
Proof. repeat split; reflexivity. Qed.

(** A call with a handle and every out-parameter runs the engine once and
    classifies what the run left. *)
Lemma inflate_after_guard (st : handle) input input_len input_eof output output_len p :
  all_present p = true ->
  let ret := (engine_call inflateBack9 st input input_len output output_len).1 in
  let st' := (engine_call inflateBack9 st input input_len output output_len).2 in
  let iu := to_size_t (input_len - to_uInt (avail_in (stream st'))) in
  let ou := output_offset st' in
  btidy_deflate64_inflate inflateBack9 (Some st) input input_len input_eof
                          output output_len p =
    if ret =? Z_STREAM_END then (Z_OK, Some st', Some (mk_outs iu ou 0 0 1))
    else if ret =? Z_BUF_ERROR then
      if negb (output_overflow st' =? 0) then
        (Z_OK, Some st', Some (mk_outs iu ou 0 1 0))
      else if iu =? input_len then
        if negb (input_eof =? 0)
        then (Z_DATA_ERROR, Some st', Some (mk_outs iu ou 1 0 0))
        else (Z_OK, Some st', Some (mk_outs iu ou 1 0 0))
      else (ret, Some st', Some (mk_outs iu ou 0 0 0))
    else (ret, Some st', Some (mk_outs iu ou 0 0 0)).
Proof.
  intros Hp. unfold btidy_deflate64_inflate. rewrite Hp. cbn [negb].
  destruct (engine_call inflateBack9 st input input_len output output_len)
    as [ret st']. reflexivity.
Qed.

(** A call without a handle, or with an out-parameter missing, stores
    nothing and leaves the handle alone. *)
Lemma inflate_guard (state : option handle) input input_len input_eof output output_len p :
  state = None \/ all_present p = false ->
  btidy_deflate64_inflate inflateBack9 state input input_len input_eof
                          output output_len p = (Z_STREAM_ERROR, state, None).
Proof.
  intros [->|Hp]; [reflexivity|]. unfold btidy_deflate64_inflate.
  destruct state; [|reflexivity]. rewrite Hp. reflexivity.
Qed.

(** C1.  When the engine run stops with [Z_BUF_ERROR] and the overflow flag
    of the call is set, the call returns [Z_OK] with [needs_output = 1],
    [needs_input = 0] and [finished = 0]; nothing is asked about the input,
    so this also holds when the run consumed all of it. *)
Theorem overflow_takes_priority (st : handle) input input_len input_eof
    output output_len p :
  let ret := (engine_call inflateBack9 st input input_len output output_len).1 in
  let st' := (engine_call inflateBack9 st input input_len output output_len).2 in
  all_present p = true ->
  ret = Z_BUF_ERROR ->
  output_overflow st' <> 0 ->
  btidy_deflate64_inflate inflateBack9 (Some st) input input_len input_eof
                          output output_len p =
    (Z_OK, Some st',
     Some (mk_outs (to_size_t (input_len - to_uInt (avail_in (stream st'))))
                   (output_offset st') 0 1 0)).
Proof.
  intros ret st' Hp Hret Hflag.
  rewrite inflate_after_guard by exact Hp. cbv zeta. fold ret st'.
  rewrite Hret. change (Z_BUF_ERROR =? Z_STREAM_END) with false.
  change (Z_BUF_ERROR =? Z_BUF_ERROR) with true. cbv iota.
  rewrite (proj2 (Z.eqb_neq _ _) Hflag). reflexivity.
Qed.

(** C2.  When the engine run stops with [Z_BUF_ERROR], the overflow flag is
    clear and the engine reports no unconsumed input, the call stores
    [input_used = input_len] and [needs_input = 1]; it returns
    [Z_DATA_ERROR] when [input_eof] is set and [Z_OK] otherwise. *)
Theorem exhausted_input_classified (st : handle) input input_len input_eof
    output output_len p :
  let ret := (engine_call inflateBack9 st input input_len output output_len).1 in
  let st' := (engine_call inflateBack9 st input input_len output output_len).2 in
  let call := btidy_deflate64_inflate inflateBack9 (Some st) input input_len
                input_eof output output_len p in
  all_present p = true ->
  is_size_t input_len ->
  ret = Z_BUF_ERROR ->
  output_overflow st' = 0 ->
  to_uInt (avail_in (stream st')) = 0 ->
  (input_eof <> 0 ->
   call = (Z_DATA_ERROR, Some st', Some (mk_outs input_len (output_offset st') 1 0 0))) /\
  (input_eof = 0 ->
   call = (Z_OK, Some st', Some (mk_outs input_len (output_offset st') 1 0 0))).
Proof.
  intros ret st' call Hp HL Hret Hflag Hrem. subst call.
  rewrite inflate_after_guard by exact Hp. cbv zeta. fold ret st'.
  rewrite Hret, Hflag, Hrem, Z.sub_0_r, (to_size_t_small _ HL).
  change (Z_BUF_ERROR =? Z_STREAM_END) with false.
  change (Z_BUF_ERROR =? Z_BUF_ERROR) with true.
  change (negb (0 =? 0)) with false. cbv iota.
  rewrite (Z.eqb_refl input_len).
  split; intros He.
  - rewrite (proj2 (Z.eqb_neq _ _) He). reflexivity.
  - rewrite He. reflexivity.
Qed.

(** The driver's test [*input_used == input_len] holds exactly when the
    engine reports no unconsumed input. *)
Lemma input_used_all_iff input_len rem :
  is_size_t input_len -> is_uInt rem ->
  (to_size_t (input_len - rem) = input_len <-> rem = 0).
Proof.
  intros HL Hr. split.
  - intros E. destruct (Z_le_gt_dec rem input_len) as [Hle|Hgt].
    + rewrite to_size_t_small in E by (ranges; lia). lia.
    + unfold to_size_t in E.
      replace (input_len - rem) with ((input_len - rem + (SIZE_MAX + 1)) + (-1) * (SIZE_MAX + 1)) in E by lia.
      rewrite Z.mod_add in E by (ranges; lia).
      rewrite Z.mod_small in E by (ranges; lia). ranges. lia.
  - intros ->. rewrite Z.sub_0_r. apply to_size_t_small, HL.
Qed.

(** Whatever the outcome of a call that reaches the engine run, the stored
    [input_used] is [input_len] minus the [avail_in] the engine left in the
    stream, computed in [size_t], so the two add up to [input_len] whenever
    that [avail_in] does not exceed it; and the stored [output_used] is the
    output cursor as the run left it. *)
Lemma stored_counts (st : handle) input input_len input_eof output output_len p :
  let st' := (engine_call inflateBack9 st input input_len output output_len).2 in
  let rem := to_uInt (avail_in (stream st')) in
  all_present p = true ->
  exists status outs,
    btidy_deflate64_inflate inflateBack9 (Some st) input input_len input_eof
                            output output_len p = (status, Some st', Some outs) /\
    input_used outs = to_size_t (input_len - rem) /\
    (is_size_t input_len -> rem <= input_len -> input_used outs + rem = input_len) /\
    output_used outs = output_offset st'.
Proof.
  intros st' rem Hp.
  rewrite inflate_after_guard by exact Hp. cbv zeta. fold st' rem.
  assert (Hexact : is_size_t input_len -> rem <= input_len ->
                   to_size_t (input_len - rem) + rem = input_len).
  { intros HL Hle. rewrite to_size_t_small; [lia|].
    pose proof (to_uInt_range (avail_in (stream st'))). fold rem in H. ranges. lia. }
  repeat match goal with |- context [if ?b then _ else _] => destruct b end;
    eexists _, _; (split; [reflexivity|]); cbn; auto.
Qed.

(** On an input longer than [UINT_MAX] the stored [input_used] is at least
    [input_len - UINT_MAX], whatever the engine did with the bytes: the
    [avail_in] it is subtracted from [input_len] never exceeds [UINT_MAX]. *)
Lemma long_input_used_floor (st : handle) input input_len input_eof
    output output_len p :
  all_present p = true -> is_size_t input_len -> UINT_MAX < input_len ->
  exists status st' outs,
    btidy_deflate64_inflate inflateBack9 (Some st) input input_len input_eof
                            output output_len p = (status, Some st', Some outs) /\
    input_len - UINT_MAX <= input_used outs.
Proof.
  intros Hp HL Hlong.
  destruct (stored_counts st input input_len input_eof output output_len p Hp)
    as (status & outs & E & Hin & _).
  eexists status, _, outs. split; [exact E|]. rewrite Hin.
  match goal with |- context [to_uInt ?a] => pose proof (to_uInt_range a) as Hr end.
  rewrite to_size_t_small by (ranges; lia). ranges. lia.
Qed.

(** C6.  With an engine that never reports more unconsumed input than it was
    handed, every call stores [input_used <= input_len] and
    [output_used <= output_len], and after every push hook invocation of the
    call the output cursor is at most [output_len]. *)
Theorem no_overrun (state : option handle) input input_len input_eof
    output output_len p :
  engine_reports_within inflateBack9 ->
  is_size_t input_len -> is_size_t output_len ->
  (forall outs,
     (btidy_deflate64_inflate inflateBack9 state input input_len input_eof
                              output output_len p).2 = Some outs ->
     input_used outs <= input_len /\ output_used outs <= output_len) /\
  (forall st, state = Some st ->
     Forall (push_cursor_within output_len)
            (call_trace inflateBack9 st input input_len output output_len)).
Proof.
  intros Hengine Hi Ho.
  assert (Hbind : forall st,
            cursors_ok (bind_call st input input_len output output_len))
    by (intros; apply bind_call_cursors_ok; assumption).
  split.
  - intros outs Hcall. destruct state as [st|]; [|discriminate].
    destruct (all_present p) eqn:Hp;
      [|rewrite inflate_guard in Hcall by auto; discriminate].
    destruct (stored_counts st input input_len input_eof output output_len p Hp)
      as (status & o & E & Hin & _ & Hout).
    rewrite E in Hcall. cbn in Hcall. injection Hcall as <-.
    unfold engine_call in *.
    set (b := bind_call st input input_len output output_len) in *.
    pose proof (run_cursors_ok (inflateBack9 input (stream b)) b (Hbind st)) as Hok.
    pose proof (run_frame (inflateBack9 input (stream b)) b) as (EI & EO & _).
    pose proof (run_reports_within (inflateBack9 input (stream b)) b
                  (to_uInt (avail_in (stream b))) (Hbind st)
                  (proj2 (bind_call_cursors_ok st input input_len output output_len Hi Ho))
                  (Hengine input (stream b))) as Hrem.
    pose proof (to_uInt_range
      (avail_in (stream (run_engine (inflateBack9 input (stream b)) b).2))) as Hr.
    destruct (bind_call_lengths st input input_len output output_len)
      as (BI & BO & _).
    fold b in BI, BO. rewrite BI in *. rewrite BO in *.
    rewrite Hin, Hout. split.
    + rewrite to_size_t_small by (ranges; lia). ranges. lia.
    + destruct Hok as (_ & _ & _ & Hc). rewrite EO in Hc. lia.
  - intros st _. unfold call_trace.
    apply (trace_push_within _ _ (Hbind st)).
Qed.

(** C10.  A call stores nothing through the out-parameters only when the
    argument guard rejects it.  Otherwise the engine ran: when the exhausted
    final input is turned into [Z_DATA_ERROR] the stored flags are
    [needs_input = 1], [needs_output = 0], [finished = 0]; and every other
    return with a status different from [Z_OK] stores 0 in all three. *)
Theorem error_return_flags (state : option handle) input input_len input_eof
    output output_len p :
  match btidy_deflate64_inflate inflateBack9 state input input_len input_eof
                                output output_len p with
  | (status, _, None) =>
      status = Z_STREAM_ERROR /\ (state = None \/ all_present p = false)
  | (status, _, Some outs) =>
      exists st, state = Some st /\ all_present p = true /\
        let ret := (engine_call inflateBack9 st input input_len output output_len).1 in
        let st' := (engine_call inflateBack9 st input input_len output output_len).2 in
        (truncation_promoted ret st' input_len input_eof ->
         status = Z_DATA_ERROR /\
         needs_input outs = 1 /\ needs_output outs = 0 /\ finished outs = 0) /\
        (~ truncation_promoted ret st' input_len input_eof ->
         status <> Z_OK ->
         needs_input outs = 0 /\ needs_output outs = 0 /\ finished outs = 0)
  end.
Proof.
  destruct state as [st|]; [|cbn; auto].
  destruct (all_present p) eqn:Hp;
    [|rewrite inflate_guard by auto; auto].
  rewrite inflate_after_guard by exact Hp. cbv zeta.
  set (ret := (engine_call inflateBack9 st input input_len output output_len).1).
  set (st' := (engine_call inflateBack9 st input input_len output output_len).2).
  unfold truncation_promoted.
  destruct (Z.eqb_spec ret Z_STREAM_END) as [Hend|Hend];
    [|destruct (Z.eqb_spec ret Z_BUF_ERROR) as [Hbuf|Hbuf];
      [destruct (Z.eqb_spec (output_overflow st') 0) as [Hflag|Hflag];
       [destruct (Z.eqb_spec
                    (to_size_t (input_len - to_uInt (avail_in (stream st'))))
                    input_len) as [Hall|Hall];
        [destruct (Z.eqb_spec input_eof 0) as [Heof|Heof]|]|]|]];
    cbn [negb]; exists st; (split; [reflexivity|]); (split; [reflexivity|]);
    cbn [needs_input needs_output finished];
    (split; [intros (Hb & Hf & Ha & He) | intros Hn Hne]);
    unfold Z_OK, Z_STREAM_END, Z_BUF_ERROR, Z_DATA_ERROR in *;
    try tauto; try lia.
Qed.

End DriverFacts.

(** ** The handle life cycle *)

Section LifecycleFacts.

Context {ctx : Type}.

Local Abbreviation handle := (btidy_deflate64_state ctx).

Variable inflateBack9Init : z_stream ctx -> positive -> Z * z_stream ctx.
Variable inflateBack9 : list byte -> z_stream ctx -> engine_run ctx.
Variable sizeof_state : Z.

Lemma new_is_zeroed hp0 (h : handle) hp :
  btidy_deflate64_new sizeof_state hp0 = (Some h, hp) -> h = zeroed_state.
Proof.
  unfold btidy_deflate64_new. destruct (calloc 1 sizeof_state hp0) as [[a|] hp1];
    intros E; congruence.
Qed.

(** [btidy_deflate64_init] on a handle, case by case. *)
Lemma init_cases (h : handle) hp :
  let started := set_stream (install_allocators (stream h)) in
  match malloc 65536 hp with
  | (None, hp1) =>
      btidy_deflate64_init inflateBack9Init (Some h) hp =
        (Z_MEM_ERROR, Some (set_window None h), hp1)
  | (Some w, hp1) =>
      let bound := inflateBack9Init (install_allocators (stream h)) w in
      btidy_deflate64_init inflateBack9Init (Some h) hp =
        if bound.1 =? Z_OK
        then (Z_OK,
              Some (set_initialized 1 (set_stream bound.2 (set_window (Some w) h))),
              hp1)
        else (bound.1,
              Some (set_window None (set_stream bound.2 (set_window (Some w) h))),
              free w hp1)
  end.
Proof.
  unfold btidy_deflate64_init. destruct (malloc 65536 hp) as [[w|] hp1]; [|reflexivity].
  cbn. destruct (inflateBack9Init (install_allocators (stream h)) w) as [ret strm].
  cbn. destruct (ret =? Z_OK); reflexivity.
Qed.

(** C8.  [btidy_deflate64_init] on the handle [btidy_deflate64_new] made
    either returns [Z_OK] with [initialized = 1] and a live 65536-byte
    window, or returns another status with [initialized = 0] and no window.
    It returns [Z_MEM_ERROR] and leaves the heap alone when the window cannot
    be allocated; when the engine fails to bind it returns the engine's
    status and the window block is freed again.  So the window is allocated
    exactly when [initialized] is 1. *)
Theorem init_on_fresh_handle hp0 (h : handle) hp :
  btidy_deflate64_new sizeof_state hp0 = (Some h, hp) ->
  let status := (btidy_deflate64_init inflateBack9Init (Some h) hp).1.1 in
  let hp' := (btidy_deflate64_init inflateBack9Init (Some h) hp).2 in
  exists h',
    (btidy_deflate64_init inflateBack9Init (Some h) hp).1.2 = Some h' /\
    ((status = Z_OK /\ initialized h' = 1 /\
      exists w, window h' = Some w /\ blocks hp' !! w = Some 65536) \/
     (status <> Z_OK /\ initialized h' = 0 /\ window h' = None)) /\
    ((malloc 65536 hp).1 = None -> status = Z_MEM_ERROR /\ hp' = hp) /\
    (forall w, (malloc 65536 hp).1 = Some w ->
       status = (inflateBack9Init (install_allocators (stream h)) w).1 /\
       (status <> Z_OK -> blocks hp' !! w = None /\ room hp' = room hp)) /\
    (is_Some (window h') <-> initialized h' = 1).
Proof.
  intros Hnew status hp'. apply new_is_zeroed in Hnew. subst h.
  pose proof (init_cases zeroed_state hp) as E. cbv zeta in E.
  subst status hp'. unfold malloc in *.
  destruct (65536 <=? room hp); cbn [fst snd] in *.
  - set (bound := inflateBack9Init (install_allocators (stream zeroed_state)) (brk hp)) in *.
    rewrite E. destruct (Z.eqb_spec bound.1 Z_OK) as [Hok|Hfail]; cbn [fst snd].
    + eexists. split; [reflexivity|]. cbn.
      split; [left; repeat split; exists (brk hp); split;
              [reflexivity | apply lookup_insert_eq]|].
      split; [discriminate|].
      split; [|split; [reflexivity | intros _; eexists; reflexivity]].
      intros w [= <-]. split; [symmetry; exact Hok|]. intros Hne. now destruct Hne.
    + eexists. split; [reflexivity|]. cbn.
      split; [right; repeat split; exact Hfail|].
      split; [discriminate|].
      split; [|split; [intros [x Hx]; discriminate | discriminate]].
      intros w [= <-]. split; [reflexivity|]. intros _.
      unfold free. cbn. rewrite lookup_insert_eq. cbn.
      split; [apply lookup_delete_eq | lia].
  - rewrite E. eexists. split; [reflexivity|]. cbn.
    split; [right; repeat split; discriminate|].
    split; [intros _; split; reflexivity|].
    split; [discriminate|split; [intros [x Hx]; discriminate | discriminate]].
Qed.

(** Nothing but a successful [btidy_deflate64_init] sets [initialized], and
    while it is 0 the stream has no engine context. *)
Lemma uninitialized_is_unbound :
  engine_rejects_unbound inflateBack9 ->
  failed_bind_binds_nothing inflateBack9Init ->
  forall h : handle,
    handle_reachable inflateBack9Init inflateBack9 sizeof_state h ->
    initialized h = 0 -> zstate (stream h) = None.
Proof.
  intros Hrej Hfail h Hreach.
  induction Hreach as
    [hp0 h hp Hnew
    |h hp ret h' hp' Hreach IH Hinit
    |h i il ie o ol p ret h' outs Hreach IH Hcall].
  - apply new_is_zeroed in Hnew. subst h. reflexivity.
  - pose proof (init_cases h hp) as E. cbv zeta in E.
    destruct (malloc 65536 hp) as [[w|] hp1].
    + rewrite E in Hinit.
      pose proof (Hfail (install_allocators (stream h)) w) as Hf.
      destruct (Z.eqb_spec (inflateBack9Init (install_allocators (stream h)) w).1 Z_OK)
        as [Hok|Hne]; injection Hinit as <- <- <-; cbn.
      * discriminate.
      * intros Hz. rewrite (Hf Hne). cbn. auto.
    + rewrite E in Hinit. injection Hinit as <- <- <-. cbn. exact IH.
  - destruct (all_present p) eqn:Hp.
    + rewrite inflate_after_guard in Hcall by exact Hp. cbv zeta in Hcall.
      assert (Hh' : h' = (engine_call inflateBack9 h i il o ol).2).
      { repeat match type of Hcall with
               | context [if ?b then _ else _] => destruct b
               end; congruence. }
      clear Hcall. subst h'. unfold engine_call.
      set (b := bind_call h i il o ol).
      destruct (bind_call_lengths h i il o ol) as (_ & _ & Binit & Bz). fold b in Binit, Bz.
      pose proof (run_frame (inflateBack9 i (stream b)) b) as (_ & _ & Rinit & _).
      intros Hz. rewrite Rinit, Binit in Hz. specialize (IH Hz).
      rewrite Hrej by congruence. cbn. congruence.
    + rewrite inflate_guard in Hcall by auto. injection Hcall as <- <- <-. exact IH.
Qed.

(** C7.  [btidy_deflate64_inflate] returns [Z_STREAM_ERROR] for a null
    handle, for a call in which any of the five out-parameters is null, and,
    the engine refusing a stream it was never bound to, for a handle that
    was never successfully initialized. *)
Theorem inflate_invalid_state (state : option handle) input input_len input_eof
    output output_len p :
  engine_rejects_unbound inflateBack9 ->
  failed_bind_binds_nothing inflateBack9Init ->
  state = None \/
  input_used_ptr p = false \/ output_used_ptr p = false \/
  needs_input_ptr p = false \/ needs_output_ptr p = false \/
  finished_ptr p = false \/
  (exists h, state = Some h /\
     handle_reachable inflateBack9Init inflateBack9 sizeof_state h /\
     initialized h = 0) ->
  (btidy_deflate64_inflate inflateBack9 state input input_len input_eof
                           output output_len p).1.1 = Z_STREAM_ERROR.
Proof.
  intros Hrej Hfail Hcase.
  assert (Hguard : state = None \/ all_present p = false ->
    (btidy_deflate64_inflate inflateBack9 state input input_len input_eof
                             output output_len p).1.1 = Z_STREAM_ERROR).
  { intros Hg. rewrite inflate_guard by exact Hg. reflexivity. }
  destruct Hcase as [H|[H|[H|[H|[H|[H|(h & -> & Hreach & Hinit)]]]]]];
    try (apply Hguard; auto; right; unfold all_present; rewrite H;
         rewrite ?andb_false_r; reflexivity).
  destruct (all_present p) eqn:Hp; [|apply Hguard; auto].
  pose proof (uninitialized_is_unbound Hrej Hfail h Hreach Hinit) as Hz.
  destruct (bind_call_lengths h input input_len output output_len) as (_ & _ & _ & Bz).
  assert (Hret : (engine_call inflateBack9 h input input_len output output_len).1
                 = Z_STREAM_ERROR).
  { unfold engine_call. rewrite Hrej by congruence. reflexivity. }
  rewrite inflate_after_guard by exact Hp. cbv zeta. rewrite Hret.
  change (Z_STREAM_ERROR =? Z_STREAM_END) with false.
  change (Z_STREAM_ERROR =? Z_BUF_ERROR) with false. reflexivity.
Qed.

Lemma run_leaves_text (e : engine_run ctx) : forall st : handle,
  leaves_text e -> msg (stream (run_engine e st).2) <> Some EmptyString.
Proof.
  induction e as [ret strm | k IH | buf k IH]; intros st He;
    cbn [run_engine leaves_text] in *.
  - exact He.
  - destruct (btidy_infback9_in st) as [[b n] st1]. apply IH, He.
  - destruct (btidy_infback9_out st buf (offered buf)) as [stop st1]. apply IH, He.
Qed.

(** No handle a caller can hold carries an empty engine text. *)
Lemma reachable_text_nonempty :
  engine_texts_nonempty inflateBack9Init inflateBack9 ->
  forall h : handle,
    handle_reachable inflateBack9Init inflateBack9 sizeof_state h ->
    msg (stream h) <> Some EmptyString.
Proof.
  intros (Hrun & Hbind) h Hreach.
  induction Hreach as
    [hp0 h hp Hnew
    |h hp ret h' hp' Hreach IH Hinit
    |h i il ie o ol p ret h' outs Hreach IH Hcall].
  - apply new_is_zeroed in Hnew. subst h. discriminate.
  - pose proof (init_cases h hp) as E. cbv zeta in E.
    destruct (malloc 65536 hp) as [[w|] hp1]; rewrite E in Hinit.
    + pose proof (Hbind (install_allocators (stream h)) w IH) as Hb.
      destruct ((inflateBack9Init (install_allocators (stream h)) w).1 =? Z_OK);
        injection Hinit as <- <- <-; exact Hb.
    + injection Hinit as <- <- <-. exact IH.
  - destruct (all_present p) eqn:Hp.
    + rewrite inflate_after_guard in Hcall by exact Hp. cbv zeta in Hcall.
      assert (Hh' : h' = (engine_call inflateBack9 h i il o ol).2).
      { repeat match type of Hcall with
               | context [if ?b then _ else _] => destruct b
               end; congruence. }
      subst h'. unfold engine_call. apply run_leaves_text, Hrun. exact IH.
    + rewrite inflate_guard in Hcall by auto. injection Hcall as <- <- <-. exact IH.
Qed.

(** C9.  [btidy_deflate64_error_message] never returns a null pointer.  It
    returns the text the engine left in the stream when the handle is not
    null and carries one, and otherwise the fixed text of the status: one
    for each of [Z_DATA_ERROR], [Z_MEM_ERROR], [Z_STREAM_ERROR] and
    [Z_BUF_ERROR], and the unknown-error text for every other code.  Engine
    texts being non-empty, so is the result. *)
Theorem error_message_total (state : option handle) (code : Z) :
  (forall h m, state = Some h -> msg (stream h) = Some m -> m <> EmptyString) ->
  exists text,
    btidy_deflate64_error_message state code = Some text /\
    text <> EmptyString /\
    (forall h m, state = Some h -> msg (stream h) = Some m -> text = m) /\
    ((state = None \/ exists h, state = Some h /\ msg (stream h) = None) ->
     (code = Z_DATA_ERROR -> text = "invalid deflate64 stream"%string) /\
     (code = Z_MEM_ERROR -> text = "insufficient memory"%string) /\
     (code = Z_STREAM_ERROR -> text = "invalid stream state"%string) /\
     (code = Z_BUF_ERROR -> text = "insufficient input or output buffer"%string) /\
     (code <> Z_DATA_ERROR -> code <> Z_MEM_ERROR -> code <> Z_STREAM_ERROR ->
      code <> Z_BUF_ERROR -> text = "unknown deflate64 error"%string)).
Proof.
  intros Hengine.
  assert (Htext : status_text code <> EmptyString /\
     (code = Z_DATA_ERROR -> status_text code = "invalid deflate64 stream"%string) /\
     (code = Z_MEM_ERROR -> status_text code = "insufficient memory"%string) /\
     (code = Z_STREAM_ERROR -> status_text code = "invalid stream state"%string) /\
     (code = Z_BUF_ERROR ->
      status_text code = "insufficient input or output buffer"%string) /\
     (code <> Z_DATA_ERROR -> code <> Z_MEM_ERROR -> code <> Z_STREAM_ERROR ->
      code <> Z_BUF_ERROR -> status_text code = "unknown deflate64 error"%string)).
  { unfold status_text.
    destruct (Z.eqb_spec code Z_DATA_ERROR) as [->|?];
      [repeat split; intros; (discriminate || reflexivity || contradiction)|].
    destruct (Z.eqb_spec code Z_MEM_ERROR) as [->|?];
      [repeat split; intros; (discriminate || reflexivity || contradiction)|].
    destruct (Z.eqb_spec code Z_STREAM_ERROR) as [->|?];
      [repeat split; intros; (discriminate || reflexivity || contradiction)|].
    destruct (Z.eqb_spec code Z_BUF_ERROR) as [->|?];
      [repeat split; intros; (discriminate || reflexivity || contradiction)|].
    repeat split; intros; (discriminate || reflexivity || contradiction). }
  unfold btidy_deflate64_error_message.
  destruct state as [h|].
  - destruct (msg (stream h)) as [m|] eqn:Hm.
    + exists m. split; [reflexivity|]. split; [apply (Hengine h m eq_refl Hm)|].
      split.
      * intros h0 m0 [= <-] Hm0. congruence.
      * intros [Hnone|(h0 & [= <-] & Hnone)]; congruence.
    + exists (status_text code). split; [reflexivity|]. split; [apply Htext|].
      split.
      * intros h0 m0 [= <-] Hm0. congruence.
      * intros _. apply Htext.
  - exists (status_text code). split; [reflexivity|]. split; [apply Htext|].
    split.
    + intros h0 m0 [=].
    + intros _. apply Htext.
Qed.

End LifecycleFacts.

(** * The bridge on the small engine *)

Lemma toy_scan_used l : forall n, 0 <= n -> 0 <= (Toy.scan l n).2 <= n.
Proof.
  induction l as [|b rest IH]; intros n Hn; cbn [Toy.scan]; [cbn; lia|].
  destruct (Z.leb_spec n 0); [cbn; lia|].
  destruct (Byte.eqb b x00); [cbn; lia|].
  destruct (Byte.eqb b xff); [cbn; lia|].
  specialize (IH (n - 1) ltac:(lia)).
  destruct (Toy.scan rest (n - 1)) as [[lit m] used]. cbn in *. lia.
Qed.

Lemma toy_loop_reports_within fuel mem strm : forall have,
  0 <= have -> reports_within have (Toy.loop fuel mem strm).
Proof.
  induction fuel as [|fuel IH]; intros have Hhave; cbn [Toy.loop].
  - cbn. change (to_uInt 0) with 0. exact Hhave.
  - cbn [reports_within]. intros buf n Hn.
    destruct buf as [off|]; [|cbn; change (to_uInt 0) with 0; ranges; lia].
    pose proof (toy_scan_used (drop (Z.to_nat off) mem) n ltac:(ranges; lia)) as Hused.
    destruct (Toy.scan _ n) as [[lit [[|]|]] used]; cbn in Hused |- *.
    + intros stop. rewrite to_uInt_small by (ranges; lia). lia.
    + rewrite to_uInt_small by (ranges; lia). lia.
    + intros stop. destruct (stop =? 0).
      * apply IH. ranges. lia.
      * cbn. change (to_uInt 0) with 0. ranges. lia.
Qed.

Lemma toy_reports_within : engine_reports_within Toy.inflateBack9.
Proof.
  intros mem strm. unfold Toy.inflateBack9. destruct (zstate strm).
  - apply toy_loop_reports_within. apply to_uInt_range.
  - cbn. lia.
Qed.

Lemma toy_rejects_unbound : engine_rejects_unbound Toy.inflateBack9.
Proof. intros mem strm Hz. unfold Toy.inflateBack9. rewrite Hz. reflexivity. Qed.

Lemma toy_failed_bind ok : failed_bind_binds_nothing (Toy.inflateBack9Init ok).
Proof.
  intros strm w. destruct ok; cbn; [intros H; now destruct H | reflexivity].
Qed.

(** Output overflows on the push that also takes the last input byte. *)
Lemma overflow_takes_priority_witness :
  btidy_deflate64_inflate Toy.inflateBack9 (Some Toy.ready)
    [x61; x62; x63] 3 0 [x00; x00] 2 Toy.all_out =
  (Z_OK,
   Some (engine_call Toy.inflateBack9 Toy.ready [x61; x62; x63] 3 [x00; x00] 2).2,
   Some (mk_outs 3 2 0 1 0)).
Proof.
  apply (overflow_takes_priority Toy.inflateBack9 Toy.ready
           [x61; x62; x63] 3 0 [x00; x00] 2 Toy.all_out).
  - reflexivity.
  - vm_compute. reflexivity.
  - vm_compute. discriminate.
Defined.

(** A final input that stops short of the end marker. *)
Lemma exhausted_input_classified_witness :
  btidy_deflate64_inflate Toy.inflateBack9 (Some Toy.ready)
    [x61; x62] 2 1 [x00; x00; x00; x00] 4 Toy.all_out =
  (Z_DATA_ERROR,
   Some (engine_call Toy.inflateBack9 Toy.ready [x61; x62] 2 [x00; x00; x00; x00] 4).2,
   Some (mk_outs 2 2 1 0 0)).
Proof.
  apply (exhausted_input_classified Toy.inflateBack9 Toy.ready
           [x61; x62] 2 1 [x00; x00; x00; x00] 4 Toy.all_out).
  - reflexivity.
  - ranges. lia.
  - vm_compute. reflexivity.
  - vm_compute. reflexivity.
  - vm_compute. reflexivity.
  - discriminate.
Defined.

(** A stream that ends one byte before the input does. *)
Example stream_ends_early :
  (btidy_deflate64_inflate Toy.inflateBack9 (Some Toy.ready)
     [x61; x62; x00; x63] 4 0 [x00; x00; x00; x00] 4 Toy.all_out).2 =
  Some (mk_outs 3 2 0 0 1).
Proof. reflexivity. Qed.

(** C3.  The stored [input_used] is not the number of input bytes the engine
    consumed when the input is longer than [UINT_MAX].  Here 5 000 000 000
    bytes are supplied and the first one is malformed: the one pull hands out
    [UINT_MAX] bytes from position 0, the engine takes a single byte and
    leaves [avail_in = UINT_MAX - 1], and the call stores
    [input_used = 5000000000 - (UINT_MAX - 1) = 705032706].  The stored
    [output_used] is the output cursor, 0. *)
Theorem long_input_misreports_input_used :
  let input := xff :: replicate (Z.to_nat 4999999999) x00 in
  let call := btidy_deflate64_inflate Toy.inflateBack9 (Some Toy.ready)
                input 5000000000 0 [x00; x00] 2 Toy.all_out in
  let st' := (engine_call Toy.inflateBack9 Toy.ready input 5000000000 [x00; x00] 2).2 in
  call.1.1 = Z_DATA_ERROR /\
  call.2 = Some (mk_outs 705032706 0 0 0 0) /\
  input_offset st' = UINT_MAX /\
  avail_in (stream st') = UINT_MAX - 1 /\
  next_in (stream st') = Some 1 /\
  output_offset st' = 0.
Proof. cbv zeta. repeat split; reflexivity. Qed.

(** Three bytes offered with room for two. *)
Lemma push_hook_contract_witness :
  let after := (btidy_infback9_out Toy.pushing [x61; x62; x63] 3).2 in
  output after = [x31; x32; x33; x61; x62] /\
  output_offset after = 5 /\
  (btidy_infback9_out Toy.pushing [x61; x62; x63] 3).1 = 1 /\
  output_overflow after = 1.
Proof.
  destruct (push_hook_contract Toy.pushing [x61; x62; x63] 3)
    as (Hcopy & _ & _ & Hcur & _ & Hstop & _).
  - ranges. lia.
  - cbn. lia.
  - reflexivity.
  - reflexivity.
  - cbv zeta. rewrite Hcopy, Hcur. split; [reflexivity|]. split; [reflexivity|].
    apply Hstop. vm_compute. reflexivity.
Defined.

(** More input left than one transfer may carry. *)
Lemma pull_hook_contract_witness :
  btidy_infback9_in Toy.pulling =
  (Some 0, UINT_MAX, set_input_offset UINT_MAX Toy.pulling).
Proof.
  destruct (pull_hook_contract Toy.pulling) as (_ & Hslice).
  - ranges. lia.
  - ranges. lia.
  - destruct Hslice as (E & _); [cbn; lia|]. exact E.
Defined.

Lemma no_overrun_witness :
  (forall outs,
     (btidy_deflate64_inflate Toy.inflateBack9 (Some Toy.ready)
        [x61; x62; x63] 3 0 [x00; x00] 2 Toy.all_out).2 = Some outs ->
     input_used outs <= 3 /\ output_used outs <= 2) /\
  (forall st, Some Toy.ready = Some st ->
     Forall (push_cursor_within 2)
            (call_trace Toy.inflateBack9 st [x61; x62; x63] 3 [x00; x00] 2)).
Proof.
  apply (no_overrun Toy.inflateBack9 (Some Toy.ready)
           [x61; x62; x63] 3 0 [x00; x00] 2 Toy.all_out).
  - exact toy_reports_within.
  - ranges. lia.
  - ranges. lia.
Defined.

(** Driving the handle whose [btidy_deflate64_init] failed in the engine. *)
Lemma inflate_invalid_state_witness :
  (btidy_deflate64_inflate Toy.inflateBack9
     (btidy_deflate64_init (Toy.inflateBack9Init false) (Some zeroed_state)
        (btidy_deflate64_new (ctx:=unit) Toy.sizeof_state Toy.empty_heap).2).1.2
     [x61; x62; x00] 3 1 [x00; x00] 2 Toy.all_out).1.1 = Z_STREAM_ERROR.
Proof.
  apply (inflate_invalid_state (Toy.inflateBack9Init false) Toy.inflateBack9
           Toy.sizeof_state).
  - exact toy_rejects_unbound.
  - exact (toy_failed_bind false).
  - do 6 right. eexists. split; [reflexivity|]. split; [|reflexivity].
    apply (reach_init _ _ _ zeroed_state
             (btidy_deflate64_new (ctx:=unit) Toy.sizeof_state Toy.empty_heap).2
             Z_MEM_ERROR _
             (free 2%positive
                (malloc 65536
                   (btidy_deflate64_new (ctx:=unit) Toy.sizeof_state
                      Toy.empty_heap).2).2)).
    + apply (reach_new _ _ _ Toy.empty_heap zeroed_state
               (btidy_deflate64_new (ctx:=unit) Toy.sizeof_state Toy.empty_heap).2).
      reflexivity.
    + reflexivity.
Defined.

Lemma init_on_fresh_handle_witness :
  exists h',
    (btidy_deflate64_init (Toy.inflateBack9Init true) (Some zeroed_state)
       (btidy_deflate64_new (ctx:=unit) Toy.sizeof_state Toy.empty_heap).2).1.2
      = Some h' /\
    initialized h' = 1 /\ window h' = Some 2%positive.
Proof.
  destruct (init_on_fresh_handle (Toy.inflateBack9Init true) Toy.sizeof_state
              Toy.empty_heap zeroed_state
              (btidy_deflate64_new (ctx:=unit) Toy.sizeof_state Toy.empty_heap).2
              eq_refl)
    as (h' & E & _).
  exists h'. split; [exact E|].
  vm_compute in E. injection E as <-. split; reflexivity.
Defined.

Lemma error_message_total_witness :
  exists text,
    btidy_deflate64_error_message (Some Toy.failed) Z_DATA_ERROR = Some text /\
    text <> EmptyString /\ text = "invalid block type"%string.
Proof.
  destruct (error_message_total (Some Toy.failed) Z_DATA_ERROR)
    as (text & E & Hne & Hengine & _).
  - intros h m [= <-] [= <-]. discriminate.
  - exists text. split; [exact E|]. split; [exact Hne|].
    apply (Hengine Toy.failed); reflexivity.
Defined.

(** The promoted truncation carries [needs_input = 1]; an engine error
    carries no flag. *)
Example truncation_sets_needs_input :
  (btidy_deflate64_inflate Toy.inflateBack9 (Some Toy.ready)
     [x61; x62] 2 1 [x00; x00; x00; x00] 4 Toy.all_out).2 =
  Some (mk_outs 2 2 1 0 0).
Proof. reflexivity. Qed.

Example engine_error_sets_no_flag :
  let call := btidy_deflate64_inflate Toy.inflateBack9 (Some Toy.ready)
                [x61; xff; x00; x63] 4 1 [x00; x00; x00; x00] 4 Toy.all_out in
  call.1.1 = Z_DATA_ERROR /\ call.2 = Some (mk_outs 2 0 0 0 0).
Proof. split; reflexivity. Qed.

(** * Further properties of the bridge *)

(** ** What the output buffer receives *)

Lemma fill_length {A} (out b : list A) (c : nat) :
  (c <= length out)%nat ->
  length (take c out ++ take (length out - c) b ++ drop (c + length b) out)
  = length out.
Proof.
  intros Hc. rewrite !length_app, !length_take, length_drop. lia.
Qed.

Lemma fill_compose {A} (out b1 b2 : list A) (c : nat) :
  (c <= length out)%nat ->
  let o1 := take c out ++ take (length out - c) b1 ++ drop (c + length b1) out in
  let c1 := Nat.min (length out) (c + length b1) in
  take c1 o1 ++ take (length o1 - c1) b2 ++ drop (c1 + length b2) o1 =
  take c out ++ take (length out - c) (b1 ++ b2) ++
  drop (c + length (b1 ++ b2)) out.
Proof.
  intros Hc o1 c1.
  assert (Hlen : length o1 = length out) by (apply fill_length; exact Hc).
  rewrite Hlen. rewrite length_app.
  destruct (le_lt_dec (length b1) (length out - c)) as [Hfit|Hover].
  - assert (Hc1 : c1 = (c + length b1)%nat) by (subst c1; lia).
    assert (Ho1 : o1 = (take c out ++ b1) ++ drop (c + length b1) out).
    { subst o1. rewrite (take_ge b1) by lia. by rewrite <- app_assoc. }
    assert (Hpre : length (take c out ++ b1) = c1).
    { rewrite length_app, length_take. lia. }
    rewrite Hc1 in *. rewrite Ho1.
    rewrite take_app_length' by (symmetry; exact Hpre).
    rewrite drop_app_ge by lia. rewrite Hpre.
    rewrite drop_drop.
    rewrite (take_app b1 b2). rewrite (take_ge b1) by lia.
    rewrite <- !app_assoc. f_equal. f_equal. f_equal.
    + f_equal. lia.
    + f_equal. lia.
  - assert (Hc1 : c1 = length out) by (subst c1; lia).
    rewrite Hc1. rewrite (take_ge o1) by lia.
    rewrite Nat.sub_diag, take_0. rewrite (drop_ge o1) by lia.
    rewrite (drop_ge out (c + (length b1 + length b2))) by lia.
    subst o1. rewrite (drop_ge out (c + length b1)) by lia.
    rewrite (take_app_le b1 b2) by lia. by rewrite !app_nil_r.
Qed.

Lemma deliver_length out c bytes :
  0 <= c <= Z.of_nat (length out) -> length (deliver out c bytes) = length out.
Proof. intros Hc. unfold deliver. apply fill_length. lia. Qed.

Lemma deliver_deliver out c b1 b2 :
  0 <= c <= Z.of_nat (length out) ->
  deliver (deliver out c b1)
          (Z.min (Z.of_nat (length out)) (c + Z.of_nat (length b1))) b2
  = deliver out c (b1 ++ b2).
Proof.
  intros Hc.
  pose proof (fill_compose out b1 b2 (Z.to_nat c) ltac:(lia)) as E. cbv zeta in E.
  unfold deliver.
  replace (Z.to_nat (Z.min (Z.of_nat (length out)) (c + Z.of_nat (length b1))))
    with (Nat.min (length out) (Z.to_nat c + length b1)) by lia.
  exact E.
Qed.

Section DeliveryFacts.

Context {ctx : Type}.

Local Abbreviation handle := (btidy_deflate64_state ctx).

(** The pull hook changes nothing but the input cursor. *)
Lemma pull_only_moves_cursor (st : handle) :
  (btidy_infback9_in st).2 =
  set_input_offset (input_offset (btidy_infback9_in st).2) st.
Proof.
  unfold btidy_infback9_in. destruct (input_len st <=? input_offset st);
    destruct st; reflexivity.
Qed.

(** The push hook, offered a whole buffer, in terms of [deliver]. *)
Lemma push_delivers (st : handle) (buf : list byte) :
  is_size_t (output_len st) ->
  0 <= output_offset st <= output_len st ->
  Z.of_nat (length (output st)) = output_len st ->
  (btidy_infback9_out st buf (Z.of_nat (length buf))).2 =
    mk_state (stream st) (window st) (input st) (input_len st) (input_offset st)
             (deliver (output st) (output_offset st) buf)
             (output_len st)
             (Z.min (output_len st) (output_offset st + Z.of_nat (length buf)))
             (if output_len st <? output_offset st + Z.of_nat (length buf)
              then 1 else output_overflow st)
             (initialized st).
Proof.
  intros HL Hc Hout.
  rewrite push_closed_form by (assumption || lia). cbv zeta. cbn [snd].
  set (c := output_offset st) in *. set (L := output_len st) in *.
  set (len := Z.of_nat (length buf)).
  destruct (Z_le_gt_dec len (L - c)) as [Hfit|Hover].
  - rewrite Z.min_l by lia. rewrite Z.min_r by lia.
    rewrite (proj2 (Z.ltb_ge _ _)) by lia.
    rewrite (proj2 (Z.ltb_ge L (c + len))) by lia.
    unfold deliver. f_equal.
    rewrite (take_ge buf (Z.to_nat len)) by lia.
    rewrite (take_ge buf (length (output st) - Z.to_nat c)) by lia.
    do 3 f_equal. lia.
  - rewrite Z.min_r by lia. rewrite Z.min_l by lia.
    rewrite (proj2 (Z.ltb_lt _ _)) by lia.
    rewrite (proj2 (Z.ltb_lt L (c + len))) by lia.
    unfold deliver. f_equal; [|lia].
    rewrite (drop_ge (output st) (Z.to_nat (c + (L - c)))) by lia.
    rewrite (drop_ge (output st) (Z.to_nat c + length buf)) by lia.
    do 2 f_equal. f_equal. lia.
Qed.

(** X2.  Two pushes leave the handle as one push of the two buffers joined would:
    the same output bytes, the same cursor, the same overflow flag. *)
Theorem push_twice_is_push_once (st : handle) (b1 b2 : list byte) :
  is_size_t (output_len st) ->
  0 <= output_offset st <= output_len st ->
  Z.of_nat (length (output st)) = output_len st ->
  (btidy_infback9_out
     (btidy_infback9_out st b1 (Z.of_nat (length b1))).2
     b2 (Z.of_nat (length b2))).2
  = (btidy_infback9_out st (b1 ++ b2) (Z.of_nat (length (b1 ++ b2)))).2.
Proof.
  intros HL Hc Hout.
  rewrite (push_delivers st b1) by assumption.
  rewrite (push_delivers st (b1 ++ b2)) by assumption.
  rewrite push_delivers; cbn [output_len output_offset output output_overflow
                             stream window input input_len input_offset initialized].
  - rewrite <- Hout at 1. rewrite deliver_deliver by lia.
    rewrite length_app, Nat2Z.inj_add.
    set (c := output_offset st). set (L := output_len st).
    set (l1 := Z.of_nat (length b1)). set (l2 := Z.of_nat (length b2)).
    assert (0 <= l1 /\ 0 <= l2) as [? ?] by (subst l1 l2; lia).
    f_equal; [lia|].
    destruct (Z.ltb_spec L (c + l1)); destruct (Z.ltb_spec L (Z.min L (c + l1) + l2));
      destruct (Z.ltb_spec L (c + (l1 + l2))); try reflexivity; lia.
  - exact HL.
  - lia.
  - rewrite deliver_length by lia. exact Hout.
Qed.

(** A whole run, in terms of the bytes the engine offered. *)
Lemma run_delivers (e : engine_run ctx) : forall st : handle,
  cursors_ok st ->
  Z.of_nat (length (output st)) = output_len st ->
  offers_fit e ->
  let total := output_offset st + Z.of_nat (length (offered_bytes e st)) in
  output (run_engine e st).2 =
    deliver (output st) (output_offset st) (offered_bytes e st) /\
  output_offset (run_engine e st).2 = Z.min (output_len st) total /\
  output_overflow (run_engine e st).2 =
    (if output_len st <? total then 1 else output_overflow st).
Proof.
  induction e as [ret strm | k IH | buf k IH]; intros st Hok Hout Hfit;
    cbn [run_engine offered_bytes offers_fit] in *.
  - cbn. rewrite Z.add_0_r. destruct Hok as (_ & _ & HL & Hc).
    rewrite Z.min_r by lia. rewrite (proj2 (Z.ltb_ge _ _)) by lia.
    repeat split. unfold deliver. cbn. rewrite Nat.add_0_r.
    rewrite take_nil. cbn. symmetry. apply take_drop.
  - pose proof (pull_cursors_ok st Hok) as (Hok1 & Hn & _).
    pose proof (pull_only_moves_cursor st) as E.
    destruct (btidy_infback9_in st) as [[b n] st1]. cbn [fst snd] in *.
    specialize (IH b n st1 Hok1). rewrite E in IH |- *.
    cbn [output output_len output_offset output_overflow set_input_offset] in *.
    rewrite <- E in *. apply IH; [exact Hout | apply Hfit, Hn].
  - destruct Hfit as [Hbuf Hfit].
    assert (Hoff : offered buf = Z.of_nat (length buf)).
    { unfold offered. apply to_uInt_small. ranges. lia. }
    rewrite Hoff.
    pose proof (push_cursors_ok st buf (Z.of_nat (length buf)) Hok ltac:(lia)) as Hok1.
    destruct Hok as (_ & _ & HL & Hc).
    pose proof (push_delivers st buf HL Hc Hout) as E.
    destruct (btidy_infback9_out st buf (Z.of_nat (length buf))) as [stop st1].
    cbn [snd] in *. specialize (IH stop st1 Hok1).
    rewrite E in IH |- *.
    cbn [output output_len output_offset output_overflow] in *.
    rewrite <- E in *.
    destruct IH as (Ho & Hc1 & Hf1);
      [rewrite deliver_length by lia; exact Hout | apply Hfit |].
    rewrite length_app, Nat2Z.inj_add.
    set (c := output_offset st) in *. set (L := output_len st) in *.
    set (l1 := Z.of_nat (length buf)) in *.
    set (l2 := Z.of_nat (length (offered_bytes (k stop) st1))) in *.
    assert (0 <= l1 /\ 0 <= l2) as [? ?] by (subst l1 l2; lia).
    split; [|split].
    + rewrite Ho. rewrite <- Hout at 1. apply deliver_deliver. lia.
    + rewrite Hc1. lia.
    + rewrite Hf1.
      destruct (Z.ltb_spec L (c + l1)); destruct (Z.ltb_spec L (Z.min L (c + l1) + l2));
        destruct (Z.ltb_spec L (c + (l1 + l2))); try reflexivity; lia.
Qed.

End DeliveryFacts.

(** ** What the pull hook hands out over a run *)

Section PullFacts.

Context {ctx : Type}.

Local Abbreviation handle := (btidy_deflate64_state ctx).

Lemma trace_pulls_consecutive (e : engine_run ctx) : forall st : handle,
  cursors_ok st ->
  pulls_consecutive (input_offset st) (input_len st) (engine_trace e st) /\
  input_offset (run_engine e st).2 =
    input_offset st + pulled_total (engine_trace e st).
Proof.
  induction e as [ret strm | k IH | buf k IH]; intros st Hok;
    cbn [run_engine engine_trace pulls_consecutive pulled_total].
  - cbn. split; [exact I | lia].
  - pose proof (pull_cursors_ok st Hok) as (Hok1 & _).
    pose proof (pull_frame st) as (EL & _).
    destruct Hok as (HL & Hc & _).
    destruct (Z_le_gt_dec (input_len st) (input_offset st)) as [Hge|Hlt].
    + assert (Hc' : input_offset st = input_len st) by lia.
      rewrite pull_exhausted in * by exact Hge. cbn [snd] in *.
      cbn [pulls_consecutive pulled_total].
      destruct (IH None 0 st Hok1) as (IHc & IHt).
      rewrite Z.add_0_r. split; [|lia].
      split; [right; auto|]. split; [reflexivity | exact IHc].
    + rewrite pull_slice in * by (auto; lia). cbn [snd] in *.
      cbn [pulls_consecutive pulled_total].
      match goal with
      | |- context [run_engine (k ?b ?n) ?s] => destruct (IH b n s Hok1) as (IHc & IHt)
      end.
      cbn [input_offset input_len set_input_offset] in *.
      split; [|lia].
      split; [left; repeat split; lia|]. split; [reflexivity | exact IHc].
  - pose proof (push_cursors_ok st buf (offered buf) Hok (offered_nonneg buf)) as Hok1.
    pose proof (push_frame st buf (offered buf)) as (EL & _ & EC & _).
    destruct (btidy_infback9_out st buf (offered buf)) as [stop st1].
    cbn [snd] in *. cbn [pulls_consecutive pulled_total].
    destruct (IH stop st1 Hok1) as (IHc & IHt).
    rewrite EL, EC in *. split; [|exact IHt]. split; [reflexivity | exact IHc].
Qed.

End PullFacts.

(** ** One call, seen from the caller *)

Section CallFacts.

Context {ctx : Type}.

Local Abbreviation handle := (btidy_deflate64_state ctx).

Variable inflateBack9 : list byte -> z_stream ctx -> engine_run ctx.

Lemma bind_call_fields (st : handle) (i : list byte) (il : Z) (o : list byte) (ol : Z) :
  input_offset (bind_call st i il o ol) = 0 /\
  output_offset (bind_call st i il o ol) = 0 /\
  output_overflow (bind_call st i il o ol) = 0 /\
  output (bind_call st i il o ol) = o /\
  window (bind_call st i il o ol) = window st.
Proof. repeat split; reflexivity. Qed.

(** X1.  Within one call the pull hook hands out the caller's input front to
    back, in consecutive slices of at most [UINT_MAX] bytes with no byte
    skipped or handed out twice; it reports the end exactly when the cursor
    has reached [input_len]; and the cursor at the end of the call is the sum
    of the counts it returned, at most [input_len]. *)
Theorem pulls_are_consecutive (st : handle) input input_len output output_len :
  is_size_t input_len -> is_size_t output_len ->
  let tr := call_trace inflateBack9 st input input_len output output_len in
  let st' := (engine_call inflateBack9 st input input_len output output_len).2 in
  pulls_consecutive 0 input_len tr /\
  input_offset st' = pulled_total tr /\
  pulled_total tr <= input_len.
Proof.
  intros Hi Ho tr st'. subst tr st'. unfold call_trace, engine_call.
  set (b := bind_call st input input_len output output_len).
  pose proof (proj1 (bind_call_cursors_ok st input input_len output output_len Hi Ho))
    as Hok. fold b in Hok.
  destruct (bind_call_lengths st input input_len output output_len) as (BI & _).
  destruct (bind_call_fields st input input_len output output_len) as (BC & _).
  fold b in BI, BC.
  destruct (trace_pulls_consecutive (inflateBack9 input (stream b)) b Hok) as (Hc & Ht).
  rewrite BI, BC in *. split; [exact Hc|]. split; [lia|].
  pose proof (run_cursors_ok (inflateBack9 input (stream b)) b Hok) as (_ & Hin & _).
  pose proof (run_frame (inflateBack9 input (stream b)) b) as (EI & _).
  rewrite EI, BI in Hin. lia.
Qed.

Local Abbreviation buffer_of := (@output ctx).

(** X3.  After a call the first [output_used] bytes of the output buffer are the
    first [output_used] bytes the engine offered, in order; the rest of the
    buffer is as the caller passed it; and [output_used] is the number of
    bytes offered, or [output_len] if more were offered than fit. *)
Theorem output_holds_offered_bytes (st : handle) input input_len input_eof
    output output_len p :
  all_present p = true ->
  is_size_t input_len -> is_size_t output_len ->
  Z.of_nat (length output) = output_len ->
  (forall mem strm, offers_fit (inflateBack9 mem strm)) ->
  let b := bind_call st input input_len output output_len in
  let offered_all := offered_bytes (inflateBack9 input (stream b)) b in
  exists status st' outs,
    btidy_deflate64_inflate inflateBack9 (Some st) input input_len input_eof
                            output output_len p = (status, Some st', Some outs) /\
    output_used outs = Z.min output_len (Z.of_nat (length offered_all)) /\
    take (Z.to_nat (output_used outs)) (buffer_of st') =
      take (Z.to_nat (output_used outs)) offered_all /\
    drop (Z.to_nat (output_used outs)) (buffer_of st') =
      drop (Z.to_nat (output_used outs)) output /\
    length (buffer_of st') = length output.
Proof.
  intros Hp Hi Ho Hlen Hfit b offered_all.
  destruct (stored_counts inflateBack9 st input input_len input_eof output output_len p Hp)
    as (status & outs & E & _ & _ & Hused).
  eexists status, _, outs. split; [exact E|].
  unfold engine_call in *. fold b in Hused |- *.
  pose proof (proj1 (bind_call_cursors_ok st input input_len output output_len Hi Ho))
    as Hok. fold b in Hok.
  destruct (bind_call_lengths st input input_len output output_len) as (_ & BO & _).
  destruct (bind_call_fields st input input_len output output_len)
    as (_ & BC & _ & Bout & _).
  fold b in BO, BC, Bout.
  destruct (run_delivers (inflateBack9 input (stream b)) b Hok) as (Hout & Hcur & _).
  { rewrite Bout, BO. exact Hlen. }
  { apply Hfit. }
  fold offered_all in Hout, Hcur. rewrite BC, BO, Bout in *. rewrite Z.add_0_l in Hcur.
  rewrite Hused, Hcur, Hout. unfold deliver. change (Z.to_nat 0) with 0%nat.
  rewrite take_0, app_nil_l, Nat.sub_0_r, Nat.add_0_l.
  set (B := offered_all). split; [reflexivity|].
  destruct (Z_le_gt_dec (Z.of_nat (length B)) output_len) as [Hle|Hgt].
  - rewrite Z.min_r by lia. rewrite Nat2Z.id.
    rewrite (take_ge B (length output)) by lia.
    rewrite take_app_length, drop_app_length, take_ge by lia.
    rewrite length_app, length_drop. repeat split; lia.
  - rewrite Z.min_l by lia.
    rewrite (drop_ge output (length B)) by lia. rewrite app_nil_r.
    replace (Z.to_nat output_len) with (length output) by lia.
    rewrite take_take, Nat.min_id.
    rewrite (drop_ge output) by lia.
    rewrite drop_ge by (rewrite length_take; lia).
    rewrite length_take. repeat split; lia.
Qed.

(** X4.  The overflow flag of a call ends up 1 exactly when the engine offered
    more than [output_len] bytes, and is 0 otherwise; so whenever a call
    stores [needs_output = 1] the output buffer is full:
    [output_used = output_len]. *)
Theorem needs_output_means_full (st : handle) input input_len input_eof
    output output_len p :
  all_present p = true ->
  is_size_t input_len -> is_size_t output_len ->
  Z.of_nat (length output) = output_len ->
  (forall mem strm, offers_fit (inflateBack9 mem strm)) ->
  let b := bind_call st input input_len output output_len in
  let offered_all := offered_bytes (inflateBack9 input (stream b)) b in
  let st' := (engine_call inflateBack9 st input input_len output output_len).2 in
  output_overflow st' =
    (if output_len <? Z.of_nat (length offered_all) then 1 else 0) /\
  forall outs,
    (btidy_deflate64_inflate inflateBack9 (Some st) input input_len input_eof
                             output output_len p).2 = Some outs ->
    needs_output outs = 1 ->
    output_used outs = output_len /\ output_len < Z.of_nat (length offered_all).
Proof.
  intros Hp Hi Ho Hlen Hfit b offered_all st'.
  pose proof (proj1 (bind_call_cursors_ok st input input_len output output_len Hi Ho))
    as Hok. fold b in Hok.
  destruct (bind_call_lengths st input input_len output output_len) as (_ & BO & _).
  destruct (bind_call_fields st input input_len output output_len)
    as (_ & BC & BF & Bout & _).
  fold b in BO, BC, BF, Bout.
  destruct (run_delivers (inflateBack9 input (stream b)) b Hok) as (_ & Hcur & Hflag).
  { rewrite Bout, BO. exact Hlen. }
  { apply Hfit. }
  fold offered_all in Hcur, Hflag. rewrite BC, BO, BF in *.
  rewrite Z.add_0_l in *.
  assert (Hst : st' = (run_engine (inflateBack9 input (stream b)) b).2) by reflexivity.
  rewrite <- Hst in *. split; [exact Hflag|].
  intros outs Hcall Hneeds.
  rewrite inflate_after_guard in Hcall by exact Hp. cbv zeta in Hcall.
  fold st' in Hcall.
  destruct (Z.ltb_spec output_len (Z.of_nat (length offered_all))) as [Hover|Hfits].
  - assert (Hu : output_used outs = output_offset st').
    { repeat match type of Hcall with
             | context [if ?c then _ else _] => destruct c
             end; cbn in Hcall; injection Hcall as <-; reflexivity. }
    rewrite Hu, Hcur. lia.
  - exfalso. rewrite Hflag in Hcall. change (negb (0 =? 0)) with false in Hcall.
    repeat match type of Hcall with
           | context [if ?c then _ else _] => destruct c
           end; cbn in Hcall; injection Hcall as <-; cbn in Hneeds; discriminate.
Qed.

End CallFacts.

(** ** The input a call binds twice *)

Section BoundInputFacts.

Context {ctx : Type}.

Local Abbreviation handle := (btidy_deflate64_state ctx).

(** X14.  A call with a non-empty input hands the engine the same bytes twice:
    the position and count it binds in [next_in] and [avail_in], the start of
    the input and [min input_len UINT_MAX] bytes, are what the first pull of
    the call returns again. *)
Theorem first_pull_repeats_bound_input (st : handle) (i : list byte) (il : Z)
    (o : list byte) (ol : Z) :
  is_size_t il -> 0 < il ->
  let b := bind_call st i il o ol in
  next_in (stream b) = Some 0 /\
  avail_in (stream b) = Z.min il UINT_MAX /\
  (btidy_infback9_in b).1 = (next_in (stream b), avail_in (stream b)).
Proof.
  intros Hil Hpos b.
  assert (Hav : avail_in (stream b) = Z.min il UINT_MAX).
  { subst b. unfold bind_call. cbn. destruct (Z.ltb_spec UINT_MAX il).
    - lia.
    - rewrite to_uInt_small by (ranges; lia). lia. }
  split; [reflexivity|]. split; [exact Hav|].
  rewrite pull_slice.
  - cbn [fst]. rewrite Hav. subst b. cbn. rewrite Z.sub_0_r. reflexivity.
  - exact Hil.
  - subst b. cbn. lia.
Qed.

End BoundInputFacts.

(** ** How a call is classified *)

Section ClassificationFacts.

Context {ctx : Type}.

Local Abbreviation handle := (btidy_deflate64_state ctx).

Variable inflateBack9 : list byte -> z_stream ctx -> engine_run ctx.

(** X5.  Each of the three flags a call stores is 0 or 1 and at most one of them
    is 1.  [finished] is 1 exactly when the engine returned [Z_STREAM_END],
    [needs_output] exactly when it returned [Z_BUF_ERROR] with the overflow
    flag set, [needs_input] exactly when it returned [Z_BUF_ERROR] with the
    flag clear and left [avail_in = 0]. *)
Theorem flags_are_exclusive (st : handle) input input_len input_eof
    output output_len p :
  all_present p = true -> is_size_t input_len ->
  let ret := (engine_call inflateBack9 st input input_len output output_len).1 in
  let st' := (engine_call inflateBack9 st input input_len output output_len).2 in
  exists status outs,
    btidy_deflate64_inflate inflateBack9 (Some st) input input_len input_eof
                            output output_len p = (status, Some st', Some outs) /\
    (finished outs = 0 \/ finished outs = 1) /\
    (needs_output outs = 0 \/ needs_output outs = 1) /\
    (needs_input outs = 0 \/ needs_input outs = 1) /\
    finished outs + needs_output outs + needs_input outs <= 1 /\
    (finished outs = 1 <-> ret = Z_STREAM_END) /\
    (needs_output outs = 1 <-> ret = Z_BUF_ERROR /\ output_overflow st' <> 0) /\
    (needs_input outs = 1 <->
     ret = Z_BUF_ERROR /\ output_overflow st' = 0 /\
     to_uInt (avail_in (stream st')) = 0).
Proof.
  intros Hp HL ret st'.
  rewrite inflate_after_guard by exact Hp. cbv zeta. fold ret st'.
  pose proof (input_used_all_iff input_len (to_uInt (avail_in (stream st'))) HL
                (to_uInt_range _)) as Hall.
  destruct (Z.eqb_spec ret Z_STREAM_END) as [Hend|Hend];
    [|destruct (Z.eqb_spec ret Z_BUF_ERROR) as [Hbuf|Hbuf];
      [destruct (Z.eqb_spec (output_overflow st') 0) as [Hflag|Hflag];
       [destruct (Z.eqb_spec
                    (to_size_t (input_len - to_uInt (avail_in (stream st'))))
                    input_len) as [Hused|Hused];
        [destruct (negb (input_eof =? 0))|]|]|]];
    cbn [negb]; eexists _, _; (split; [reflexivity|]);
    cbn [needs_input needs_output finished];
    unfold Z_STREAM_END, Z_BUF_ERROR in *;
    repeat split; try (left; reflexivity); try (right; reflexivity);
    try lia; try tauto; intros; try lia; try tauto.
Qed.

(** X6.  A call never returns [Z_STREAM_END].  A status of the engine other than
    [Z_STREAM_END] and [Z_BUF_ERROR] is returned as it is, with all three
    flags 0.  And [Z_BUF_ERROR] is returned only when the engine returned it
    with the overflow flag clear and [avail_in] not 0. *)
Theorem engine_status_surfaced (st : handle) input input_len input_eof
    output output_len p :
  all_present p = true -> is_size_t input_len ->
  let ret := (engine_call inflateBack9 st input input_len output output_len).1 in
  let st' := (engine_call inflateBack9 st input input_len output output_len).2 in
  exists status outs,
    btidy_deflate64_inflate inflateBack9 (Some st) input input_len input_eof
                            output output_len p = (status, Some st', Some outs) /\
    status <> Z_STREAM_END /\
    (ret <> Z_STREAM_END -> ret <> Z_BUF_ERROR ->
     status = ret /\
     needs_input outs = 0 /\ needs_output outs = 0 /\ finished outs = 0) /\
    (status = Z_BUF_ERROR ->
     ret = Z_BUF_ERROR /\ output_overflow st' = 0 /\
     to_uInt (avail_in (stream st')) <> 0).
Proof.
  intros Hp HL ret st'.
  rewrite inflate_after_guard by exact Hp. cbv zeta. fold ret st'.
  pose proof (input_used_all_iff input_len (to_uInt (avail_in (stream st'))) HL
                (to_uInt_range _)) as Hall.
  destruct (Z.eqb_spec ret Z_STREAM_END) as [Hend|Hend];
    [|destruct (Z.eqb_spec ret Z_BUF_ERROR) as [Hbuf|Hbuf];
      [destruct (Z.eqb_spec (output_overflow st') 0) as [Hflag|Hflag];
       [destruct (Z.eqb_spec
                    (to_size_t (input_len - to_uInt (avail_in (stream st'))))
                    input_len) as [Hused|Hused];
        [destruct (negb (input_eof =? 0))|]|]|]];
    cbn [negb]; eexists _, _; (split; [reflexivity|]);
    cbn [needs_input needs_output finished];
    unfold Z_STREAM_END, Z_BUF_ERROR, Z_OK, Z_DATA_ERROR in *;
    repeat split; intros; try lia; try tauto.
Qed.

(** X7.  A call reads nothing of what an earlier call left in the handle's
    per-call fields or in the stream's [next_in] and [avail_in]: two handles
    that agree on the engine context, the engine text, the allocators, the
    window and [initialized] give the same result. *)
Theorem stale_call_state_ignored (st1 st2 : handle) input input_len input_eof
    output output_len p :
  msg (stream st1) = msg (stream st2) ->
  zstate (stream st1) = zstate (stream st2) ->
  zalloc_set (stream st1) = zalloc_set (stream st2) ->
  window st1 = window st2 ->
  initialized st1 = initialized st2 ->
  all_present p = true ->
  btidy_deflate64_inflate inflateBack9 (Some st1) input input_len input_eof
                          output output_len p
  = btidy_deflate64_inflate inflateBack9 (Some st2) input input_len input_eof
                            output output_len p.
Proof.
  intros Hm Hz Ha Hw Hi Hp.
  rewrite !inflate_after_guard by exact Hp. cbv zeta.
  assert (Hb : bind_call st1 input input_len output output_len
               = bind_call st2 input input_len output output_len).
  { unfold bind_call. rewrite Hm, Hz, Ha, Hw, Hi. reflexivity. }
  unfold engine_call. rewrite Hb. reflexivity.
Qed.

(** One call leaves the window and [initialized] as they were. *)
Lemma call_keeps_window (h h1 : handle) input input_len input_eof
    output output_len p ret outs :
  btidy_deflate64_inflate inflateBack9 (Some h) input input_len input_eof
                          output output_len p = (ret, Some h1, outs) ->
  window h1 = window h /\ initialized h1 = initialized h.
Proof.
  intros Hcall. destruct (all_present p) eqn:Hp.
  - rewrite inflate_after_guard in Hcall by exact Hp. cbv zeta in Hcall.
    assert (Hh1 : h1 = (engine_call inflateBack9 h input input_len
                          output output_len).2).
    { repeat match type of Hcall with
             | context [if ?b then _ else _] => destruct b
             end; congruence. }
    subst h1. unfold engine_call.
    set (b := bind_call h input input_len output output_len).
    pose proof (run_frame (inflateBack9 input (stream b)) b) as (_ & _ & Ri & Rw).
    rewrite Ri, Rw. split; reflexivity.
  - rewrite inflate_guard in Hcall by auto. injection Hcall as <- <- <-.
    split; reflexivity.
Qed.

(** X8.  However a handle is driven, and whatever the calls return, its window
    and its [initialized] field stay as they were. *)
Theorem driving_keeps_window (h h' : handle) :
  driven inflateBack9 h h' ->
  window h' = window h /\ initialized h' = initialized h.
Proof.
  induction 1 as [h|h h1 h' i il ie o ol p ret outs Hcall Hrest IH];
    [split; reflexivity|].
  destruct (call_keeps_window h h1 i il ie o ol p ret outs Hcall) as [Hw Hi].
  destruct IH as [IHw IHi]. split; congruence.
Qed.

End ClassificationFacts.

(** ** Allocation over the life of a handle *)

Lemma malloc_some n hp p hp' :
  heap_wf hp -> malloc n hp = (Some p, hp') ->
  p = brk hp /\ blocks hp !! p = None /\
  blocks hp' = <[p := n]> (blocks hp) /\ room hp' = room hp - n /\
  brk hp' = Pos.succ p /\ heap_wf hp'.
Proof.
  intros Hwf. unfold malloc. destruct (n <=? room hp); [|discriminate].
  intros [= <- <-]. cbn. repeat split; try reflexivity.
  - apply Hwf. lia.
  - intros q Hq. cbn in *. rewrite lookup_insert_ne by lia. apply Hwf. lia.
Qed.

Lemma malloc_none n hp hp' : malloc n hp = (None, hp') -> hp' = hp.
Proof. unfold malloc. destruct (n <=? room hp); congruence. Qed.

Lemma free_live p n hp :
  blocks hp !! p = Some n ->
  blocks (free p hp) = delete p (blocks hp) /\
  room (free p hp) = room hp + n /\ brk (free p hp) = brk hp.
Proof. intros H. unfold free. rewrite H. cbn. repeat split. Qed.

Section LifeFacts.

Context {ctx : Type}.

Local Abbreviation handle := (btidy_deflate64_state ctx).

Variable inflateBack9Init : z_stream ctx -> positive -> Z * z_stream ctx.
Variable inflateBack9 : list byte -> z_stream ctx -> engine_run ctx.
Variable inflateBack9End : z_stream ctx -> Z * z_stream ctx.
Variable sizeof_state : Z.


(** X10.  [btidy_deflate64_init] never frees a window the handle already holds:
    whatever it returns, that block is still live afterwards and the handle
    no longer points to it. *)
Theorem init_again_leaks_window (h : handle) hp w n :
  heap_wf hp -> window h = Some w -> blocks hp !! w = Some n ->
  exists h',
    (btidy_deflate64_init inflateBack9Init (Some h) hp).1.2 = Some h' /\
    window h' <> Some w /\
    blocks (btidy_deflate64_init inflateBack9Init (Some h) hp).2 !! w = Some n.
Proof.
  intros Hwf Hw Hlive.
  pose proof (init_cases inflateBack9Init h hp) as E. cbv zeta in E.
  destruct (malloc 65536 hp) as [[w'|] hp1] eqn:Hm.
  - destruct (malloc_some _ _ _ _ Hwf Hm) as (-> & Hfresh & Hb & Hr & _ & _).
    assert (Hne : brk hp <> w) by (intros Heq; rewrite Heq in Hfresh; congruence).
    rewrite E. destruct (_ =? Z_OK); cbn [fst snd].
    + eexists. split; [reflexivity|]. cbn. split; [congruence|].
      rewrite Hb. rewrite lookup_insert_ne by exact Hne. exact Hlive.
    + eexists. split; [reflexivity|]. cbn. split; [discriminate|].
      destruct (free_live (brk hp) 65536 hp1) as (Hfb & _).
      { rewrite Hb. apply lookup_insert_eq. }
      rewrite Hfb, Hb. rewrite lookup_delete_ne by exact Hne.
      rewrite lookup_insert_ne by exact Hne. exact Hlive.
  - apply malloc_none in Hm. subst hp1. rewrite E. cbn [fst snd].
    eexists. split; [reflexivity|]. cbn. split; [discriminate | exact Hlive].
Qed.

(** X11.  From [btidy_deflate64_new] through at most one [btidy_deflate64_init],
    whatever it returned, and any number of [btidy_deflate64_inflate] calls,
    [btidy_deflate64_free] gives back both the handle and the window: the
    live blocks and the room are those before [btidy_deflate64_new].  It
    calls the engine's teardown exactly when the init had returned
    [Z_OK]. *)
Theorem free_releases_everything hp0 (h : handle) hp1 addr
    (with_init : bool) ret h1 hp2 h2 :
  heap_wf hp0 ->
  btidy_deflate64_new sizeof_state hp0 = (Some h, hp1) ->
  new_pointer sizeof_state hp0 = Some addr ->
  (if with_init
   then btidy_deflate64_init inflateBack9Init (Some h) hp1 = (ret, Some h1, hp2)
   else h1 = h /\ hp2 = hp1) ->
  driven inflateBack9 h1 h2 ->
  let released := btidy_deflate64_free inflateBack9End (Some (addr, h2)) hp2 in
  blocks released.1 = blocks hp0 /\
  room released.1 = room hp0 /\
  (is_Some released.2 <-> with_init = true /\ ret = Z_OK).
Proof.
  intros Hwf Hnew Hptr Hinit Hdriven released.
  unfold btidy_deflate64_new, new_pointer, calloc in *.
  destruct (malloc (1 * sizeof_state) hp0) as [[a|] hpa] eqn:Hm; [|discriminate].
  injection Hnew as <- <-. cbn in Hptr. injection Hptr as <-.
  destruct (malloc_some _ _ _ _ Hwf Hm) as (Ha & Hfresh & Hb1 & Hr1 & Hbrk1 & Hwf1).
  assert (window h2 = window h1 /\ initialized h2 = initialized h1) as [Hw2 Hi2].
  { clear -Hdriven.
    induction Hdriven as [h|h hm h' i il ie o ol p r outs Hcall Hrest IH];
      [split; reflexivity|].
    destruct (call_keeps_window inflateBack9 h hm i il ie o ol p r outs Hcall)
      as [Hw Hi].
    destruct IH as [IHw IHi]. split; congruence. }
  assert (Hshape :
    (window h1 = None /\ initialized h1 = 0 /\
     blocks hp2 = blocks hpa /\ room hp2 = room hpa /\
     ~ (with_init = true /\ ret = Z_OK)) \/
    (exists w, window h1 = Some w /\ initialized h1 = 1 /\
       blocks hp2 = <[w := 65536]> (blocks hpa) /\ blocks hpa !! w = None /\
       room hp2 = room hpa - 65536 /\ with_init = true /\ ret = Z_OK)).
  { destruct with_init.
    - pose proof (init_cases inflateBack9Init zeroed_state hpa) as E. cbv zeta in E.
      destruct (malloc 65536 hpa) as [[w|] hpw] eqn:Hmw.
      + destruct (malloc_some _ _ _ _ Hwf1 Hmw) as (Hw & Hwfresh & Hbw & Hrw & _ & _).
        rewrite E in Hinit.
        destruct (Z.eqb_spec
                    (inflateBack9Init (install_allocators (stream zeroed_state)) w).1
                    Z_OK) as [Hok|Hne]; injection Hinit as <- <- <-.
        * right. exists w. cbn. repeat split; auto.
        * left. cbn. destruct (free_live w 65536 hpw) as (Hfb & Hfr & _).
          { rewrite Hbw. apply lookup_insert_eq. }
          rewrite Hfb, Hfr, Hbw, Hrw. rewrite delete_insert_id by exact Hwfresh.
          repeat split; try lia. intros [_ Hret]. contradiction.
      + apply malloc_none in Hmw. subst hpw. rewrite E in Hinit.
        injection Hinit as <- <- <-. left. cbn. repeat split.
        intros [_ Hret]. discriminate.
    - destruct Hinit as [-> ->]. left. cbn. repeat split. intros [? _]. discriminate. }
  subst released. unfold btidy_deflate64_free. rewrite Hw2, Hi2.
  destruct Hshape as [(Hw & Hi & Hb & Hr & Hno)|(w & Hw & Hi & Hb & Hwfresh & Hr & Hyes)].
  - rewrite Hw, Hi. cbn [negb fst snd]. change (0 =? 0) with true. cbn [negb].
    destruct (free_live a (1 * sizeof_state) hp2) as (Hfb & Hfr & _).
    { rewrite Hb, Hb1. apply lookup_insert_eq. }
    rewrite Hfb, Hfr, Hb, Hr, Hb1, Hr1. rewrite delete_insert_id by exact Hfresh.
    split; [reflexivity|]. split; [lia|].
    split; [intros [x Hx]; discriminate | intros; contradiction].
  - rewrite Hw, Hi. change (negb (1 =? 0)) with true. cbn [fst snd].
    assert (Hwa : w <> a) by (intros ->; rewrite Hb1, lookup_insert_eq in Hwfresh;
                              discriminate).
    destruct (free_live w 65536 hp2) as (Hfb & Hfr & _).
    { rewrite Hb. apply lookup_insert_eq. }
    destruct (free_live a (1 * sizeof_state) (free w hp2)) as (Hfb2 & Hfr2 & _).
    { rewrite Hfb, Hb. rewrite delete_insert_id by exact Hwfresh.
      rewrite Hb1. apply lookup_insert_eq. }
    rewrite Hfb2, Hfr2, Hfb, Hfr, Hb, Hr.
    rewrite delete_insert_id by exact Hwfresh.
    rewrite Hb1, Hr1. rewrite delete_insert_id by exact Hfresh.
    split; [reflexivity|]. split; [lia|].
    split; [intros _; exact Hyes | intros _; eexists; reflexivity].
Qed.

End LifeFacts.

(** ** The fixed texts *)

(** X12.  The fixed text tells the status category: two codes get the same text
    exactly when they are equal or are both outside the four codes the
    switch names. *)
Theorem status_text_tells_category (c1 c2 : Z) :
  let named c := c = Z_DATA_ERROR \/ c = Z_MEM_ERROR \/
                 c = Z_STREAM_ERROR \/ c = Z_BUF_ERROR in
  status_text c1 = status_text c2 <-> c1 = c2 \/ (~ named c1 /\ ~ named c2).
Proof.
  cbv zeta. unfold status_text.
  destruct (Z.eqb_spec c1 Z_DATA_ERROR); destruct (Z.eqb_spec c1 Z_MEM_ERROR);
    destruct (Z.eqb_spec c1 Z_STREAM_ERROR); destruct (Z.eqb_spec c1 Z_BUF_ERROR);
    destruct (Z.eqb_spec c2 Z_DATA_ERROR); destruct (Z.eqb_spec c2 Z_MEM_ERROR);
    destruct (Z.eqb_spec c2 Z_STREAM_ERROR); destruct (Z.eqb_spec c2 Z_BUF_ERROR);
    unfold Z_DATA_ERROR, Z_MEM_ERROR, Z_STREAM_ERROR, Z_BUF_ERROR in *;
    try lia; (split; [intros E; try discriminate E; try lia; try tauto
                     | intros [E|[E1 E2]]; try reflexivity; try lia; try tauto]).
Qed.

(** * More runs of the small engine *)

Lemma toy_scan_lit_length l : forall n,
  0 <= n -> Z.of_nat (length (Toy.scan l n).1.1) <= n.
Proof.
  induction l as [|b rest IH]; intros n Hn; cbn [Toy.scan]; [cbn; lia|].
  destruct (Z.leb_spec n 0); [cbn; lia|].
  destruct (Byte.eqb b x00); [cbn; lia|].
  destruct (Byte.eqb b xff); [cbn; lia|].
  specialize (IH (n - 1) ltac:(lia)).
  destruct (Toy.scan rest (n - 1)) as [[lit m] used]. cbn in *. lia.
Qed.

Lemma toy_loop_offers_fit fuel mem strm : offers_fit (Toy.loop fuel mem strm).
Proof.
  induction fuel as [|fuel IH]; cbn [Toy.loop]; [exact I|].
  cbn [offers_fit]. intros buf n Hn.
  destruct buf as [off|]; [|exact I].
  pose proof (toy_scan_lit_length (drop (Z.to_nat off) mem) n ltac:(ranges; lia)) as Hlit.
  destruct (Toy.scan _ n) as [[lit [[|]|]] used]; cbn in Hlit |- *.
  - split; [ranges; lia | intros; exact I].
  - exact I.
  - split; [ranges; lia|]. intros stop. destruct (stop =? 0); [apply IH | exact I].
Qed.

Lemma toy_offers_fit : forall mem strm, offers_fit (Toy.inflateBack9 mem strm).
Proof.
  intros mem strm. unfold Toy.inflateBack9. destruct (zstate strm).
  - apply toy_loop_offers_fit.
  - exact I.
Qed.

Lemma toy_empty_heap_wf : heap_wf Toy.empty_heap.
Proof. intros p _. apply lookup_empty. Qed.

(** One byte, then two more, into a buffer with room for two. *)
Lemma push_twice_is_push_once_witness :
  (btidy_infback9_out (btidy_infback9_out Toy.pushing [x61] 1).2 [x62; x63] 2).2
  = (btidy_infback9_out Toy.pushing [x61; x62; x63] 3).2.
Proof.
  apply (push_twice_is_push_once Toy.pushing [x61] [x62; x63]).
  - ranges. lia.
  - cbn. lia.
  - reflexivity.
Defined.

Lemma pulls_are_consecutive_witness :
  pulls_consecutive 0 2
    (call_trace Toy.inflateBack9 Toy.ready [x61; x62] 2 [x00; x00; x00; x00] 4) /\
  input_offset
    (engine_call Toy.inflateBack9 Toy.ready [x61; x62] 2 [x00; x00; x00; x00] 4).2
  = pulled_total
      (call_trace Toy.inflateBack9 Toy.ready [x61; x62] 2 [x00; x00; x00; x00] 4) /\
  pulled_total
    (call_trace Toy.inflateBack9 Toy.ready [x61; x62] 2 [x00; x00; x00; x00] 4) <= 2.
Proof.
  apply (pulls_are_consecutive Toy.inflateBack9 Toy.ready
           [x61; x62] 2 [x00; x00; x00; x00] 4).
  - ranges. lia.
  - ranges. lia.
Defined.

(** Three bytes offered to a two-byte output. *)
Lemma output_holds_offered_bytes_witness :
  exists status st' outs,
    btidy_deflate64_inflate Toy.inflateBack9 (Some Toy.ready)
      [x61; x62; x63] 3 0 [x00; x00] 2 Toy.all_out = (status, Some st', Some outs) /\
    output_used outs = Z.min 2 3 /\
    take (Z.to_nat (output_used outs)) (output st') =
      take (Z.to_nat (output_used outs)) [x61; x62; x63] /\
    drop (Z.to_nat (output_used outs)) (output st') =
      drop (Z.to_nat (output_used outs)) [x00; x00] /\
    length (output st') = 2%nat.
Proof.
  apply (output_holds_offered_bytes Toy.inflateBack9 Toy.ready
           [x61; x62; x63] 3 0 [x00; x00] 2 Toy.all_out).
  - reflexivity.
  - ranges. lia.
  - ranges. lia.
  - reflexivity.
  - exact toy_offers_fit.
Defined.

Lemma needs_output_means_full_witness :
  output_overflow
    (engine_call Toy.inflateBack9 Toy.ready [x61; x62; x63] 3 [x00; x00] 2).2 = 1 /\
  forall outs,
    (btidy_deflate64_inflate Toy.inflateBack9 (Some Toy.ready)
       [x61; x62; x63] 3 0 [x00; x00] 2 Toy.all_out).2 = Some outs ->
    needs_output outs = 1 ->
    output_used outs = 2 /\ 2 < 3.
Proof.
  apply (needs_output_means_full Toy.inflateBack9 Toy.ready
           [x61; x62; x63] 3 0 [x00; x00] 2 Toy.all_out).
  - reflexivity.
  - ranges. lia.
  - ranges. lia.
  - reflexivity.
  - exact toy_offers_fit.
Defined.

Lemma flags_are_exclusive_witness :
  exists status outs,
    btidy_deflate64_inflate Toy.inflateBack9 (Some Toy.ready)
      [x61; x62; x00; x63] 4 0 [x00; x00; x00; x00] 4 Toy.all_out
    = (status,
       Some (engine_call Toy.inflateBack9 Toy.ready
               [x61; x62; x00; x63] 4 [x00; x00; x00; x00] 4).2,
       Some outs) /\
    finished outs = 1 /\ needs_output outs = 0 /\ needs_input outs = 0.
Proof.
  destruct (flags_are_exclusive Toy.inflateBack9 Toy.ready
              [x61; x62; x00; x63] 4 0 [x00; x00; x00; x00] 4 Toy.all_out)
    as (status & outs & E & _ & Ho & Hi & Hsum & Hfin & _).
  - reflexivity.
  - ranges. lia.
  - exists status, outs. split; [exact E|].
    assert (Hf : finished outs = 1) by (apply Hfin; reflexivity).
    split; [exact Hf|]. lia.
Defined.

(** A malformed byte: the engine's [Z_DATA_ERROR] comes back as it is. *)
Lemma engine_status_surfaced_witness :
  exists status outs,
    btidy_deflate64_inflate Toy.inflateBack9 (Some Toy.ready)
      [x61; xff; x00; x63] 4 0 [x00; x00; x00; x00] 4 Toy.all_out
    = (status,
       Some (engine_call Toy.inflateBack9 Toy.ready
               [x61; xff; x00; x63] 4 [x00; x00; x00; x00] 4).2,
       Some outs) /\
    status = Z_DATA_ERROR /\
    needs_input outs = 0 /\ needs_output outs = 0 /\ finished outs = 0.
Proof.
  destruct (engine_status_surfaced Toy.inflateBack9 Toy.ready
              [x61; xff; x00; x63] 4 0 [x00; x00; x00; x00] 4 Toy.all_out)
    as (status & outs & E & _ & Hpass & _).
  - reflexivity.
  - ranges. lia.
  - exists status, outs. split; [exact E|].
    apply Hpass; vm_compute; discriminate.
Defined.

(** A handle fresh from init and one left in the middle of a call. *)
Lemma stale_call_state_ignored_witness :
  btidy_deflate64_inflate Toy.inflateBack9 (Some Toy.ready)
    [x61; x62; x00] 3 1 [x00; x00] 2 Toy.all_out
  = btidy_deflate64_inflate Toy.inflateBack9 (Some Toy.pushing)
      [x61; x62; x00] 3 1 [x00; x00] 2 Toy.all_out.
Proof.
  apply (stale_call_state_ignored Toy.inflateBack9 Toy.ready Toy.pushing);
    reflexivity.
Defined.

Lemma driving_keeps_window_witness :
  let h' := (engine_call Toy.inflateBack9 Toy.ready
               [x61; x62; x63] 3 [x00; x00] 2).2 in
  window h' = Some 2%positive /\ initialized h' = 1.
Proof.
  apply (driving_keeps_window Toy.inflateBack9 Toy.ready).
  eapply (driven_call Toy.inflateBack9 Toy.ready _ _
            [x61; x62; x63] 3 0 [x00; x00] 2 Toy.all_out).
  - reflexivity.
  - apply driven_none.
Defined.


(** A second init on an initialized handle, succeeding. *)
Lemma init_again_leaks_window_witness :
  let hp := (malloc 65536 (malloc 200 Toy.empty_heap).2).2 in
  exists h',
    (btidy_deflate64_init (Toy.inflateBack9Init true) (Some Toy.ready) hp).1.2
      = Some h' /\
    window h' <> Some 2%positive /\
    blocks (btidy_deflate64_init (Toy.inflateBack9Init true) (Some Toy.ready) hp).2
      !! 2%positive = Some 65536.
Proof.
  apply (init_again_leaks_window (Toy.inflateBack9Init true) Toy.ready).
  - destruct (malloc_some 200 Toy.empty_heap 1%positive
                (malloc 200 Toy.empty_heap).2 toy_empty_heap_wf eq_refl)
      as (_ & _ & _ & _ & _ & Hwf1).
    destruct (malloc_some 65536 (malloc 200 Toy.empty_heap).2 2%positive
                (malloc 65536 (malloc 200 Toy.empty_heap).2).2 Hwf1 eq_refl)
      as (_ & _ & _ & _ & _ & Hwf2).
    exact Hwf2.
  - reflexivity.
  - vm_compute. reflexivity.
Defined.

(** New, a successful init, one call, free. *)
Lemma free_releases_everything_witness :
  let hp1 := (btidy_deflate64_new (ctx:=unit) Toy.sizeof_state Toy.empty_heap).2 in
  let hp2 := (btidy_deflate64_init (Toy.inflateBack9Init true)
                (Some zeroed_state) hp1).2 in
  let h2 := (engine_call Toy.inflateBack9 Toy.ready
               [x61; x62; x63] 3 [x00; x00] 2).2 in
  let released :=
    btidy_deflate64_free ToyEnd.inflateBack9End (Some (1%positive, h2)) hp2 in
  blocks released.1 = blocks Toy.empty_heap /\
  room released.1 = room Toy.empty_heap /\
  (is_Some released.2 <-> true = true /\ Z_OK = Z_OK).
Proof.
  apply (free_releases_everything (Toy.inflateBack9Init true) Toy.inflateBack9
           ToyEnd.inflateBack9End Toy.sizeof_state Toy.empty_heap zeroed_state
           (btidy_deflate64_new (ctx:=unit) Toy.sizeof_state Toy.empty_heap).2
           1%positive true Z_OK Toy.ready).
  - exact toy_empty_heap_wf.
  - reflexivity.
  - reflexivity.
  - reflexivity.
  - eapply (driven_call Toy.inflateBack9 Toy.ready _ _
              [x61; x62; x63] 3 0 [x00; x00] 2 Toy.all_out).
    + reflexivity.
    + apply driven_none.
Defined.

Lemma first_pull_repeats_bound_input_witness :
  let b := bind_call Toy.ready [x61; x62; x63] 3 [x00; x00] 2 in
  next_in (stream b) = Some 0 /\
  avail_in (stream b) = 3 /\
  (btidy_infback9_in b).1 = (Some 0, 3).
Proof.
  apply (first_pull_repeats_bound_input Toy.ready [x61; x62; x63] 3 [x00; x00] 2).
  - ranges. lia.
  - lia.
Defined.

(** Five thousand million bytes, the first of them malformed. *)
Lemma long_input_used_floor_witness :
  exists status st' outs,
    btidy_deflate64_inflate Toy.inflateBack9 (Some Toy.ready)
      (xff :: replicate (Z.to_nat 4999999999) x00) 5000000000 0
      [x00; x00] 2 Toy.all_out = (status, Some st', Some outs) /\
    5000000000 - UINT_MAX <= input_used outs.
Proof.
  apply (long_input_used_floor Toy.inflateBack9 Toy.ready
           (xff :: replicate (Z.to_nat 4999999999) x00) 5000000000 0
           [x00; x00] 2 Toy.all_out).
  - reflexivity.
  - ranges. lia.
  - unfold UINT_MAX. lia.
Defined.
